(** * Transcript Gateway: a shallow embedding of [api/index.py]

    The three data-returning route handlers ([get_transcript],
    [get_transcript_with_language], [get_available_languages]) are embedded
    as computations in a state-and-exception monad.  The state is the
    outside world the transcript provider talks to, together with the log of
    the calls made into the provider; exceptions are either the framework's
    [HTTPException] or an ordinary [Exception] carrying its message. *)

From Stdlib Require Import List String Ascii ZArith NArith Bool Lia.
From Stdlib Require Import Floats.PrimFloat.
Import ListNotations.

Set Implicit Arguments.

(** ** Python strings *)

(** A Python [str] is a sequence of Unicode code points. *)
Definition pystr := list N.

(** The code points of a literal of the source (all of them are ASCII). *)
Definition lit (s : string) : pystr :=
  map N_of_ascii (list_ascii_of_string s).

(** [str.isspace] on one code point, the test [str.strip()] uses when it is
    called without an argument. *)
Definition is_space (c : N) : bool :=
  ((9 <=? c) && (c <=? 13) || (28 <=? c) && (c <=? 32)
   || (c =? 133) || (c =? 160) || (c =? 5760)
   || (8192 <=? c) && (c <=? 8202)
   || (c =? 8232) || (c =? 8233) || (c =? 8239) || (c =? 8287)
   || (c =? 12288))%N.

Fixpoint lstrip (s : pystr) : pystr :=
  match s with
  | [] => []
  | c :: s' => if is_space c then lstrip s' else s
  end.

Definition rstrip (s : pystr) : pystr := rev (lstrip (rev s)).

(** [s.strip()]: the left end is scanned first, then the right end of what
    is left. *)
Definition strip (s : pystr) : pystr := rstrip (lstrip s).

Fixpoint startswith (prefix s : pystr) : bool :=
  match prefix, s with
  | [], _ => true
  | _ :: _, [] => false
  | a :: prefix', b :: s' => N.eqb a b && startswith prefix' s'
  end.

(** [needle in hay] on strings. *)
Fixpoint contains (needle hay : pystr) : bool :=
  startswith needle hay
  || match hay with
     | [] => false
     | _ :: hay' => contains needle hay'
     end.

(** [sep.join(parts)]. *)
Fixpoint join (sep : pystr) (parts : list pystr) : pystr :=
  match parts with
  | [] => []
  | x :: rest =>
      match rest with
      | [] => x
      | _ :: _ => x ++ sep ++ join sep rest
      end
  end.

(** ** Values handed over to the framework for JSON serialisation *)

#[warnings="-register-all"]
Inductive json : Type :=
| JBool (b : bool)
| JInt (z : Z)
| JFloat (f : float)
| JStr (s : pystr)
| JArr (items : list json)
| JObj (fields : list (pystr * json)).

Fixpoint pystr_eqb (a b : pystr) : bool :=
  match a, b with
  | [], [] => true
  | x :: a', y :: b' => N.eqb x y && pystr_eqb a' b'
  | _, _ => false
  end.

Fixpoint assoc (k : pystr) (fields : list (pystr * json)) : option json :=
  match fields with
  | [] => None
  | (k', v) :: rest => if pystr_eqb k k' then Some v else assoc k rest
  end.

(** [d.get(k)] on a response; [None] when the key is absent (or the value
    is not a dict). *)
Definition field (k : string) (j : json) : option json :=
  match j with
  | JObj fields => assoc (lit k) fields
  | _ => None
  end.

(** The response with one key left out. *)
Definition without (k : string) (j : json) : json :=
  match j with
  | JObj fields =>
      JObj (filter (fun kv => negb (pystr_eqb (lit k) (fst kv))) fields)
  | _ => j
  end.

(** ** What the transcript provider hands back *)

Record CaptionEntry : Type := mkCaptionEntry {
  text : pystr;
  start : float;
  duration : float
}.

(** The attributes of a [Transcript] object the gateway reads. *)
Module Transcript.
Record t : Type := make {
  language : pystr;
  language_code : pystr;
  is_generated : bool;
  is_translatable : bool
}.
End Transcript.

(** A [TranscriptList], as the transcripts its iteration yields. *)
Definition TranscriptList := list Transcript.t.

(** The [proxies] dict, in insertion order. *)
Definition Proxies := list (pystr * pystr).

(** ** Exceptions *)

Inductive exn : Type :=
| HTTPException (status_code : Z) (detail : pystr)
| Exception (message : pystr).

Definition status_of (e : exn) : option Z :=
  match e with
  | HTTPException c _ => Some c
  | Exception _ => None
  end.

(** ** Calls into the provider, as they are logged *)

Inductive event : Type :=
| EvGetTranscript (video_id : pystr) (languages : option (list pystr))
    (proxies : option Proxies) (res : pystr + list CaptionEntry)
| EvListTranscripts (video_id : pystr) (res : pystr + TranscriptList)
| EvFindTranscript (transcript_list : TranscriptList)
    (language_codes : list pystr) (res : pystr + Transcript.t)
| EvFetch (transcript : Transcript.t) (res : pystr + list CaptionEntry).

(** The caption entries an event delivered, if it delivered any. *)
Definition entries_of (ev : event) : option (list CaptionEntry) :=
  match ev with
  | EvGetTranscript _ _ _ (inr es) => Some es
  | EvFetch _ (inr es) => Some es
  | _ => None
  end.

(** Events that ask the provider for captions. *)
Definition is_fetch (ev : event) : bool :=
  match ev with
  | EvGetTranscript _ _ _ _ => true
  | EvFetch _ _ => true
  | _ => false
  end.

Definition last_event (log : list event) : option event :=
  match rev log with
  | [] => None
  | ev :: _ => Some ev
  end.

(** The provider is a black box over the outside world [World]: a call
    either raises an exception (a subclass of [Exception] other than
    [HTTPException]), of which only the message [str(e)] matters to the
    gateway, or returns a value; either way the world moves on. *)
Record Provider (World : Type) : Type := mkProvider {
  api_get_transcript :
    pystr -> option (list pystr) -> option Proxies ->
    World -> (pystr + list CaptionEntry) * World;
  api_list_transcripts :
    pystr -> World -> (pystr + TranscriptList) * World;
  api_find_transcript :
    TranscriptList -> list pystr -> World -> (pystr + Transcript.t) * World;
  api_fetch :
    Transcript.t -> World -> (pystr + list CaptionEntry) * World
}.

(** ** The monad *)

(** A computation over the world and the call log that raises an [E] or
    returns an [A]. *)
Definition Comp (World E A : Type) : Type :=
  World * list event -> (E + A) * (World * list event).

Definition ret {World E A} (a : A) : Comp World E A :=
  fun st => (inr a, st).

Definition raise {World E A} (e : E) : Comp World E A :=
  fun st => (inl e, st).

Definition bind {World E A B}
    (m : Comp World E A) (k : A -> Comp World E B) : Comp World E B :=
  fun st =>
    match m st with
    | (inl e, st') => (inl e, st')
    | (inr a, st') => k a st'
    end.

Declare Scope comp_scope.
Delimit Scope comp_scope with comp.
Notation "x <- m ;; k" := (bind m (fun x => k))
  (at level 61, m at next level, right associativity) : comp_scope.
Notation "m ;;; k" := (bind m (fun _ => k))
  (at level 61, right associativity) : comp_scope.
Local Open Scope comp_scope.

(** [try: body / except Exception as e: handler(str(e))], for a body made
    of provider calls only. *)
Definition try_provider {World A}
    (body : Comp World pystr A) (handler : pystr -> Comp World exn A)
  : Comp World exn A :=
  fun st =>
    match body st with
    | (inl msg, st') => handler msg st'
    | (inr a, st') => (inr a, st')
    end.

(** A block of provider calls inside a larger block. *)
Definition lift {World A} (body : Comp World pystr A) : Comp World exn A :=
  fun st =>
    match body st with
    | (inl msg, st') => (inl (Exception msg), st')
    | (inr a, st') => (inr a, st')
    end.

(** [try: body / except Exception: handler]: [HTTPException] is a subclass
    of [Exception], so whatever the body raises is caught. *)
Definition try_except {World A}
    (body handler : Comp World exn A) : Comp World exn A :=
  fun st =>
    match body st with
    | (inl _, st') => handler st'
    | (inr a, st') => (inr a, st')
    end.

(** [try: body / except HTTPException: raise /
    except Exception as e: handler(str(e))]. *)
Definition try_reraising_http {World A}
    (body : Comp World exn A) (handler : pystr -> Comp World exn A)
  : Comp World exn A :=
  fun st =>
    match body st with
    | (inl (HTTPException c d), st') => (inl (HTTPException c d), st')
    | (inl (Exception msg), st') => handler msg st'
    | (inr a, st') => (inr a, st')
    end.

(** ** The gateway *)

Section Gateway.

Variable World : Type.
Variable provider : Provider World.

Definition P := Comp World pystr.
Definition M := Comp World exn.

(** Every call into the provider is appended to the log with its result. *)
Definition logged {A} (call : World -> (pystr + A) * World)
    (ev : pystr + A -> event) : P A :=
  fun st =>
    let '(r, w') := call (fst st) in
    (r, (w', snd st ++ [ev r])).

(** [YouTubeTranscriptApi.get_transcript(video_id, languages=..., proxies=...)];
    [None] stands for an argument that is left out. *)
Definition YouTubeTranscriptApi_get_transcript (video_id : pystr)
    (languages : option (list pystr)) (proxies : option Proxies)
  : P (list CaptionEntry) :=
  logged (api_get_transcript provider video_id languages proxies)
         (EvGetTranscript video_id languages proxies).

(** [YouTubeTranscriptApi.list_transcripts(video_id)]. *)
Definition YouTubeTranscriptApi_list_transcripts (video_id : pystr)
  : P TranscriptList :=
  logged (api_list_transcripts provider video_id)
         (EvListTranscripts video_id).

(** [transcript_list.find_transcript(language_codes)]. *)
Definition find_transcript (transcript_list : TranscriptList)
    (language_codes : list pystr) : P Transcript.t :=
  logged (api_find_transcript provider transcript_list language_codes)
         (EvFindTranscript transcript_list language_codes).

(** [transcript.fetch()]. *)
Definition fetch (transcript : Transcript.t) : P (list CaptionEntry) :=
  logged (api_fetch provider transcript) (EvFetch transcript).

(** [if not video_id: raise HTTPException(status_code=400, ...)]. *)
Definition check_video_id (video_id : pystr) : M unit :=
  match video_id with
  | [] => raise (HTTPException 400 (lit "Invalid YouTube video ID or URL"))
  | _ :: _ => ret tt
  end.

(** [proxies = None] / [if proxy: proxies = {"http": proxy, "https": proxy}]:
    an absent proxy and the empty string are both falsy. *)
Definition proxies_of (proxy : option pystr) : option Proxies :=
  match proxy with
  | Some (c :: s) => Some [(lit "http", c :: s); (lit "https", c :: s)]
  | _ => None
  end.

(** [proxy is not None]. *)
Definition is_not_None (proxy : option pystr) : bool :=
  match proxy with
  | Some _ => true
  | None => false
  end.

Definition formatted_entry (entry : CaptionEntry) : json :=
  JObj [(lit "text", JStr (text entry));
        (lit "start", JFloat (start entry));
        (lit "duration", JFloat (duration entry))].

(** The loop [for entry in transcript: ...], from
    [formatted_transcript = []] and [full_text = ""]. *)
Definition format_loop (transcript : list CaptionEntry)
  : list json * pystr :=
  fold_left
    (fun acc entry =>
       (fst acc ++ [formatted_entry entry],
        snd acc ++ (text entry ++ lit " ")))
    transcript ([], lit "").

Definition blocked_hint : pystr :=
  lit "YouTube is blocking requests. Try: 1) Different video ID, 2) Add ?proxy=YOUR_PROXY_URL, 3) Try again later. Original error: ".

Definition en_variants : list pystr := [lit "en"; lit "en-US"; lit "en-GB"].
Definition en_preferred : list pystr := [lit "en"; lit "en-US"].

(** The outer [except Exception as e] of [get_transcript]. *)
Definition map_transcript_error (error_msg : pystr) : exn :=
  if contains (lit "No transcripts were found") error_msg then
    HTTPException 404 (lit "No transcripts found for this video")
  else if contains (lit "Video unavailable") error_msg then
    HTTPException 404 (lit "Video not found or unavailable")
  else
    HTTPException 500 (lit "Error retrieving transcript: " ++ error_msg).

(** The three attempts of [get_transcript], in the order of the nested
    [try] blocks.  The [requests.Session] the first one sets up when there
    are proxies is never handed to the provider; only the [proxies] argument
    of the call differs between its two branches. *)
Definition first_attempt (video_id : pystr) (proxies : option Proxies)
  : P (list CaptionEntry) :=
  match proxies with
  | Some px => YouTubeTranscriptApi_get_transcript video_id None (Some px)
  | None => YouTubeTranscriptApi_get_transcript video_id None None
  end.

Definition second_attempt (video_id : pystr) : P (list CaptionEntry) :=
  YouTubeTranscriptApi_get_transcript video_id (Some en_variants) None.

Definition third_attempt (video_id : pystr) : P (list CaptionEntry) :=
  transcript_list <- YouTubeTranscriptApi_list_transcripts video_id ;;
  transcript <- find_transcript transcript_list en_preferred ;;
  fetch transcript.

Definition fetch_with_fallback (video_id : pystr) (proxies : option Proxies)
  : M (list CaptionEntry) :=
  try_provider
    (first_attempt video_id proxies)
    (fun first_error =>
       try_provider
         (second_attempt video_id)
         (fun second_error =>
            try_provider
              (third_attempt video_id)
              (fun _ =>
                 raise (HTTPException 503 (blocked_hint ++ first_error))))).

(** [GET /api/transcript/{video_id}]. *)
Definition get_transcript (video_id : pystr) (proxy : option pystr) : M json :=
  try_reraising_http
    (check_video_id video_id ;;;
     let proxies := proxies_of proxy in
     transcript <- fetch_with_fallback video_id proxies ;;
     let '(formatted_transcript, full_text) := format_loop transcript in
     ret (JObj [(lit "video_id", JStr video_id);
                (lit "transcript", JArr formatted_transcript);
                (lit "full_text", JStr (strip full_text));
                (lit "total_entries",
                 JInt (Z.of_nat (List.length formatted_transcript)));
                (lit "proxy_used", JBool (is_not_None proxy))]))
    (fun error_msg => raise (map_transcript_error error_msg)).

(** [GET /api/transcript-{language_code}/{video_id}]. *)
Definition get_transcript_with_language
    (language_code video_id : pystr) (proxy : option pystr) : M json :=
  try_reraising_http
    (check_video_id video_id ;;;
     let proxies := proxies_of proxy in
     transcript <-
       try_provider
         (match proxies with
          | Some px =>
              YouTubeTranscriptApi_get_transcript
                video_id (Some [language_code]) (Some px)
          | None =>
              YouTubeTranscriptApi_get_transcript
                video_id (Some [language_code]) None
          end)
         (fun e =>
            try_except
              (transcript_list <-
                 lift (YouTubeTranscriptApi_list_transcripts video_id) ;;
               let available_langs :=
                 map Transcript.language_code transcript_list in
               raise (HTTPException 404
                        (lit "No transcript found for language '"
                         ++ language_code
                         ++ lit "'. Available languages: "
                         ++ join (lit ", ") available_langs)))
              (raise (HTTPException 404
                        (lit "No transcripts found for this video in language: "
                         ++ language_code)))) ;;
     let '(formatted_transcript, full_text) := format_loop transcript in
     ret (JObj [(lit "video_id", JStr video_id);
                (lit "language", JStr language_code);
                (lit "transcript", JArr formatted_transcript);
                (lit "full_text", JStr (strip full_text));
                (lit "total_entries",
                 JInt (Z.of_nat (List.length formatted_transcript)));
                (lit "proxy_used", JBool (is_not_None proxy))]))
    (fun error_msg =>
       if contains (lit "No transcripts were found") error_msg then
         raise (HTTPException 404
                  (lit "No transcripts found for this video in language: "
                   ++ language_code))
       else if contains (lit "Video unavailable") error_msg then
         raise (HTTPException 404 (lit "Video not found or unavailable"))
       else
         raise (HTTPException 500
                  (lit "Error retrieving transcript: " ++ error_msg))).

(** Both [except] blocks of [get_available_languages] map a message the
    same way. *)
Definition map_languages_error (error_msg : pystr) : exn :=
  if contains (lit "Video unavailable") error_msg then
    HTTPException 404 (lit "Video not found or unavailable")
  else
    HTTPException 500 (lit "Error retrieving languages: " ++ error_msg).

Definition language_descriptor (transcript : Transcript.t) : json :=
  JObj [(lit "language", JStr (Transcript.language transcript));
        (lit "language_code", JStr (Transcript.language_code transcript));
        (lit "is_generated", JBool (Transcript.is_generated transcript));
        (lit "is_translatable",
         JBool (Transcript.is_translatable transcript))].

(** [GET /api/transcript_languages/{video_id}]. *)
Definition get_available_languages
    (video_id : pystr) (proxy : option pystr) : M json :=
  try_reraising_http
    (check_video_id video_id ;;;
     let proxies := proxies_of proxy in
     transcript_list <-
       try_provider
         (match proxies with
          | Some _ => YouTubeTranscriptApi_list_transcripts video_id
          | None => YouTubeTranscriptApi_list_transcripts video_id
          end)
         (fun e => raise (map_languages_error e)) ;;
     let available_languages :=
       fold_left (fun acc transcript => acc ++ [language_descriptor transcript])
                 transcript_list [] in
     ret (JObj [(lit "video_id", JStr video_id);
                (lit "available_languages", JArr available_languages);
                (lit "total_languages",
                 JInt (Z.of_nat (List.length available_languages)));
                (lit "proxy_used", JBool (is_not_None proxy))]))
    (fun error_msg => raise (map_languages_error error_msg)).

End Gateway.

Arguments get_transcript {World} provider video_id proxy _.
Arguments get_transcript_with_language {World} provider
  language_code video_id proxy _.
Arguments get_available_languages {World} provider video_id proxy _.

(** ** The shapes a run can take *)

(** The ordered fallback of the default operation, read off the log of one
    request: which calls were made, with which results, and what the chain
    ended with. *)
Inductive ordered_fallback (video_id : pystr) (proxy : option pystr)
  : list event -> exn + list CaptionEntry -> Prop :=
| first_succeeds : forall es,
    ordered_fallback video_id proxy
      [EvGetTranscript video_id None (proxies_of proxy) (inr es)]
      (inr es)
| second_succeeds : forall m1 es,
    ordered_fallback video_id proxy
      [EvGetTranscript video_id None (proxies_of proxy) (inl m1);
       EvGetTranscript video_id (Some en_variants) None (inr es)]
      (inr es)
| third_succeeds : forall m1 m2 tl t es,
    ordered_fallback video_id proxy
      [EvGetTranscript video_id None (proxies_of proxy) (inl m1);
       EvGetTranscript video_id (Some en_variants) None (inl m2);
       EvListTranscripts video_id (inr tl);
       EvFindTranscript tl en_preferred (inr t);
       EvFetch t (inr es)]
      (inr es)
| listing_fails : forall m1 m2 m3,
    ordered_fallback video_id proxy
      [EvGetTranscript video_id None (proxies_of proxy) (inl m1);
       EvGetTranscript video_id (Some en_variants) None (inl m2);
       EvListTranscripts video_id (inl m3)]
      (inl (HTTPException 503 (blocked_hint ++ m1)))
| finding_fails : forall m1 m2 tl m3,
    ordered_fallback video_id proxy
      [EvGetTranscript video_id None (proxies_of proxy) (inl m1);
       EvGetTranscript video_id (Some en_variants) None (inl m2);
       EvListTranscripts video_id (inr tl);
       EvFindTranscript tl en_preferred (inl m3)]
      (inl (HTTPException 503 (blocked_hint ++ m1)))
| fetching_fails : forall m1 m2 tl t m3,
    ordered_fallback video_id proxy
      [EvGetTranscript video_id None (proxies_of proxy) (inl m1);
       EvGetTranscript video_id (Some en_variants) None (inl m2);
       EvListTranscripts video_id (inr tl);
       EvFindTranscript tl en_preferred (inr t);
       EvFetch t (inl m3)]
      (inl (HTTPException 503 (blocked_hint ++ m1))).

(** The error an empty [video_id] is refused with. *)
Definition invalid_video_id : exn :=
  HTTPException 400 (lit "Invalid YouTube video ID or URL").

(** The text of the error every failed language-specific fetch ends in. *)
Definition language_not_found (language_code : pystr) : exn :=
  HTTPException 404
    (lit "No transcripts found for this video in language: " ++ language_code).

(** The single attempt of the language-specific operation, read off the
    log of one request. *)
Inductive single_attempt (language_code video_id : pystr)
    (proxy : option pystr)
  : list event -> exn + list CaptionEntry -> Prop :=
| attempt_succeeds : forall es,
    single_attempt language_code video_id proxy
      [EvGetTranscript video_id (Some [language_code]) (proxies_of proxy)
         (inr es)]
      (inr es)
| attempt_fails : forall m r,
    single_attempt language_code video_id proxy
      [EvGetTranscript video_id (Some [language_code]) (proxies_of proxy)
         (inl m);
       EvListTranscripts video_id r]
      (inl (language_not_found language_code)).

(** The dict both transcript handlers build from the entries they got;
    [language] is the key only the language-specific handler adds. *)
Definition transcript_response (video_id : pystr) (language : option pystr)
    (proxy : option pystr) (es : list CaptionEntry) : json :=
  JObj ([(lit "video_id", JStr video_id)]
        ++ match language with
           | Some l => [(lit "language", JStr l)]
           | None => []
           end
        ++ [(lit "transcript", JArr (fst (format_loop es)));
            (lit "full_text", JStr (strip (snd (format_loop es))));
            (lit "total_entries",
             JInt (Z.of_nat (List.length (fst (format_loop es)))));
            (lit "proxy_used", JBool (is_not_None proxy))]).

(** The dict [get_available_languages] returns for a transcript list. *)
Definition languages_response (video_id : pystr) (proxy : option pystr)
    (tl : TranscriptList) : json :=
  JObj [(lit "video_id", JStr video_id);
        (lit "available_languages", JArr (map language_descriptor tl));
        (lit "total_languages",
         JInt (Z.of_nat (List.length (map language_descriptor tl))));
        (lit "proxy_used", JBool (is_not_None proxy))].

(** Two outcomes that differ at most in the value of one key of a
    successful response. *)
Definition same_up_to (k : string) (a b : exn + json) : Prop :=
  match a, b with
  | inl e1, inl e2 => e1 = e2
  | inr r1, inr r2 => without k r1 = without k r2
  | _, _ => False
  end.

(** ** Sample providers *)

Definition sample_entries : list CaptionEntry :=
  [mkCaptionEntry (lit "Never gonna give you up") 0.5%float 2%float;
   mkCaptionEntry (lit " never gonna let you down ") 2.5%float 1.75%float].

Definition english : Transcript.t :=
  Transcript.make (lit "English") (lit "en") false true.

Definition no_transcript_message : pystr :=
  lit "No transcripts were found for any of the requested language codes".

(** The [languages] a call asks for; the provider's default is English. *)
Definition wants_english (languages : option (list pystr)) : bool :=
  match languages with
  | None => true
  | Some ls => existsb (pystr_eqb (lit "en")) ls
  end.

(** A video that has one manually created English transcript. *)
Definition english_only : Provider unit :=
  {| api_get_transcript := fun _ languages _ w =>
       (if wants_english languages then inr sample_entries
        else inl no_transcript_message, w);
     api_list_transcripts := fun _ w => (inr [english], w);
     api_find_transcript := fun tl codes w =>
       (if wants_english (Some codes) then inr english
        else inl no_transcript_message, w);
     api_fetch := fun _ w => (inr sample_entries, w) |}.

(** A provider every call of which is refused. *)
Definition refusing : Provider unit :=
  {| api_get_transcript := fun _ _ _ w => (inl no_transcript_message, w);
     api_list_transcripts := fun _ w => (inl no_transcript_message, w);
     api_find_transcript := fun _ _ w => (inl no_transcript_message, w);
     api_fetch := fun _ w => (inl no_transcript_message, w) |}.

(** A provider whose world counts the calls made so far: the first call of
    a request is refused, the later ones are served. *)
Definition flaky : Provider nat :=
  {| api_get_transcript := fun _ _ _ n =>
       (match n with
        | O => inl (lit "Too Many Requests")
        | S _ => inr sample_entries
        end, S n);
     api_list_transcripts := fun _ n => (inr [english], S n);
     api_find_transcript := fun _ _ n => (inr english, S n);
     api_fetch := fun _ n => (inr sample_entries, S n) |}.

Definition rick : pystr := lit "dQw4w9WgXcQ".

Definition sample_proxy : pystr := lit "http://proxy:8080".

(** A video that was taken down: nothing can be listed or fetched. *)
Definition unavailable_message : pystr :=
  lit "Could not retrieve a transcript: Video unavailable (private or deleted)".

Definition taken_down : Provider unit :=
  {| api_get_transcript := fun _ _ _ w => (inl unavailable_message, w);
     api_list_transcripts := fun _ w => (inl unavailable_message, w);
     api_find_transcript := fun _ _ w => (inl unavailable_message, w);
     api_fetch := fun _ w => (inl unavailable_message, w) |}.

(** A video whose transcript exists and holds no caption at all. *)
Definition silent : Provider unit :=
  {| api_get_transcript := fun _ _ _ w => (inr [], w);
     api_list_transcripts := fun _ w => (inr [english], w);
     api_find_transcript := fun _ _ w => (inr english, w);
     api_fetch := fun _ w => (inr [], w) |}.

(** A video whose direct fetches are refused while its transcripts can
    still be listed and fetched one by one. *)
Definition listed_only : Provider unit :=
  {| api_get_transcript := fun _ _ _ w => (inl (lit "Too Many Requests"), w);
     api_list_transcripts := fun _ w => (inr [english], w);
     api_find_transcript := fun _ _ w => (inr english, w);
     api_fetch := fun _ w => (inr sample_entries, w) |}.

(** ** Reading a response *)

(** The keys of a dict, in insertion order. *)
Definition keys (j : json) : list pystr :=
  match j with
  | JObj fields => map fst fields
  | _ => []
  end.


(** ** The calls a provider answered *)

(** [answered p w evs w']: the events [evs] are, in this order, calls that
    the provider [p] was asked from the world [w] on, each recorded with
    the result [p] gave, and [w'] is the world the last one left. *)
Inductive answered {World : Type} (p : Provider World)
  : World -> list event -> World -> Prop :=
| answered_nothing : forall w, answered p w [] w
| answered_get_transcript : forall w video_id languages proxies r w1 evs w',
    api_get_transcript p video_id languages proxies w = (r, w1) ->
    answered p w1 evs w' ->
    answered p w (EvGetTranscript video_id languages proxies r :: evs) w'
| answered_list_transcripts : forall w video_id r w1 evs w',
    api_list_transcripts p video_id w = (r, w1) ->
    answered p w1 evs w' ->
    answered p w (EvListTranscripts video_id r :: evs) w'
| answered_find_transcript : forall w tl language_codes r w1 evs w',
    api_find_transcript p tl language_codes w = (r, w1) ->
    answered p w1 evs w' ->
    answered p w (EvFindTranscript tl language_codes r :: evs) w'
| answered_fetch : forall w t r w1 evs w',
    api_fetch p t w = (r, w1) ->
    answered p w1 evs w' ->
    answered p w (EvFetch t r :: evs) w'.

(** * Properties *)

(** ** Strings *)

Lemma lstrip_app_keep (s t : pystr) :
  forallb is_space s = false -> lstrip (s ++ t) = lstrip s ++ t.
Proof.
  induction s as [|c s IH]; simpl; [discriminate|].
  destruct (is_space c); simpl; intros H; [apply IH; exact H | reflexivity].
Qed.

Lemma lstrip_all_space (s : pystr) :
  forallb is_space s = true -> lstrip s = [].
Proof.
  induction s as [|c s IH]; simpl; [reflexivity|].
  destruct (is_space c); simpl; [exact IH | discriminate].
Qed.

Lemma rstrip_app_space (s : pystr) : rstrip (s ++ lit " ") = rstrip s.
Proof.
  unfold rstrip. rewrite rev_app_distr. reflexivity.
Qed.

(** A blank appended at the end does not survive [strip]. *)
Lemma strip_app_space (s : pystr) : strip (s ++ lit " ") = strip s.
Proof.
  unfold strip.
  destruct (forallb is_space s) eqn:Hs.
  - assert (H : lstrip (s ++ lit " ") = []).
    { apply lstrip_all_space. rewrite forallb_app, Hs. reflexivity. }
    rewrite H, (lstrip_all_space s Hs). reflexivity.
  - rewrite lstrip_app_keep by exact Hs. apply rstrip_app_space.
Qed.

Lemma startswith_app (n t : pystr) : startswith n (n ++ t) = true.
Proof.
  induction n as [|c n IH]; simpl; [reflexivity|].
  rewrite N.eqb_refl. exact IH.
Qed.

Lemma startswith_contains (needle hay : pystr) :
  startswith needle hay = true -> contains needle hay = true.
Proof.
  intros H. destruct hay; simpl; rewrite H; reflexivity.
Qed.

(** [needle in (before + needle + after)]. *)
Lemma contains_app (needle before after : pystr) :
  contains needle (before ++ needle ++ after) = true.
Proof.
  induction before as [|c before IH].
  - simpl. apply startswith_contains. apply startswith_app.
  - simpl. simpl in IH. rewrite IH. apply orb_true_r.
Qed.

Lemma contains_suffix (needle before : pystr) :
  contains needle (before ++ needle) = true.
Proof.
  rewrite <- (app_nil_r needle) at 2. apply contains_app.
Qed.

(** ** The formatting loop *)

Lemma format_loop_from (es : list CaptionEntry) (js : list json) (s : pystr) :
  fold_left
    (fun acc entry =>
       (fst acc ++ [formatted_entry entry],
        snd acc ++ (text entry ++ lit " ")))
    es (js, s)
  = (js ++ map formatted_entry es,
     s ++ List.concat (map (fun e => text e ++ lit " ") es)).
Proof.
  revert js s.
  induction es as [|e es IH]; intros js s; simpl.
  - now rewrite !app_nil_r.
  - rewrite IH. now rewrite <- !app_assoc.
Qed.

Lemma format_loop_eq (es : list CaptionEntry) :
  format_loop es
  = (map formatted_entry es, List.concat (map (fun e => text e ++ lit " ") es)).
Proof.
  unfold format_loop. rewrite format_loop_from. reflexivity.
Qed.

(** What the loop accumulates is the space-joined text with one more blank
    at its end. *)
Lemma accumulated_text (e : CaptionEntry) (es : list CaptionEntry) :
  List.concat (map (fun e => text e ++ lit " ") (e :: es))
  = join (lit " ") (map text (e :: es)) ++ lit " ".
Proof.
  revert e.
  induction es as [|e' es IH]; intros e.
  - simpl. now rewrite app_nil_r.
  - change (List.concat (map (fun e => text e ++ lit " ") (e :: e' :: es)))
      with ((text e ++ lit " ")
            ++ List.concat (map (fun e => text e ++ lit " ") (e' :: es))).
    rewrite IH.
    change (join (lit " ") (map text (e :: e' :: es)))
      with (text e ++ lit " " ++ join (lit " ") (map text (e' :: es))).
    now rewrite <- !app_assoc.
Qed.

Lemma full_text_eq (es : list CaptionEntry) :
  strip (snd (format_loop es)) = strip (join (lit " ") (map text es)).
Proof.
  rewrite format_loop_eq. simpl snd.
  destruct es as [|e es]; [reflexivity|].
  rewrite accumulated_text. apply strip_app_space.
Qed.

Lemma descriptors_from (tl : TranscriptList) (js : list json) :
  fold_left (fun acc transcript => acc ++ [language_descriptor transcript])
            tl js
  = js ++ map language_descriptor tl.
Proof.
  revert js.
  induction tl as [|t tl IH]; intros js; simpl.
  - now rewrite app_nil_r.
  - rewrite IH. now rewrite <- app_assoc.
Qed.

(** ** How a request runs *)

Section Runs.

Context {World : Type} (p : Provider World).

Lemma first_attempt_eq (video_id : pystr) (proxies : option Proxies) :
  first_attempt p video_id proxies
  = YouTubeTranscriptApi_get_transcript p video_id None proxies.
Proof. destruct proxies; reflexivity. Qed.

Ltac run_call :=
  cbv beta iota zeta delta
    [try_provider try_except lift bind raise ret
     second_attempt third_attempt
     YouTubeTranscriptApi_get_transcript
     YouTubeTranscriptApi_list_transcripts find_transcript fetch logged
     fst snd].

Ltac tidy_log :=
  repeat (rewrite <- app_assoc; cbn [app]).

(** The fallback chain makes its calls in order, stops at the first one
    that delivers entries, and fails with the 503 error only. *)
Lemma fetch_with_fallback_run (video_id : pystr) (proxy : option pystr)
    (w : World) (log : list event) :
  exists r w' evs,
    fetch_with_fallback p video_id (proxies_of proxy) (w, log)
    = (r, (w', log ++ evs))
    /\ ordered_fallback video_id proxy evs r.
Proof.
  unfold fetch_with_fallback. rewrite first_attempt_eq. run_call.
  destruct (api_get_transcript p video_id None (proxies_of proxy) w)
    as [[m1|es] w1]; run_call.
  2:{ do 3 eexists. split; [reflexivity | constructor]. }
  destruct (api_get_transcript p video_id (Some en_variants) None w1)
    as [[m2|es] w2]; run_call.
  2:{ do 3 eexists. split; [tidy_log; reflexivity | constructor]. }
  destruct (api_list_transcripts p video_id w2) as [[m3|tl] w3]; run_call.
  1:{ do 3 eexists. split; [tidy_log; reflexivity | constructor]. }
  destruct (api_find_transcript p tl en_preferred w3) as [[m4|t] w4]; run_call.
  1:{ do 3 eexists. split; [tidy_log; reflexivity | constructor]. }
  destruct (api_fetch p t w4) as [[m5|es] w5]; run_call.
  - do 3 eexists. split; [tidy_log; reflexivity | constructor].
  - do 3 eexists. split; [tidy_log; reflexivity | constructor].
Qed.

Lemma transcript_response_eq (video_id : pystr) (language : option pystr)
    (proxy : option pystr) (es : list CaptionEntry) :
  (let '(formatted_transcript, full_text) := format_loop es in
   JObj ([(lit "video_id", JStr video_id)]
         ++ match language with
            | Some l => [(lit "language", JStr l)]
            | None => []
            end
         ++ [(lit "transcript", JArr formatted_transcript);
             (lit "full_text", JStr (strip full_text));
             (lit "total_entries",
              JInt (Z.of_nat (List.length formatted_transcript)));
             (lit "proxy_used", JBool (is_not_None proxy))]))
  = transcript_response video_id language proxy es.
Proof.
  unfold transcript_response. destruct (format_loop es). reflexivity.
Qed.

(** A request for the default transcript of a non-empty [video_id]. *)
Lemma get_transcript_run (video_id : pystr) (proxy : option pystr)
    (w : World) (log : list event) :
  video_id <> [] ->
  exists r w' evs,
    get_transcript p video_id proxy (w, log)
    = (match r with
       | inl e => inl e
       | inr es => inr (transcript_response video_id None proxy es)
       end, (w', log ++ evs))
    /\ ordered_fallback video_id proxy evs r.
Proof.
  intros Hv.
  destruct (fetch_with_fallback_run video_id proxy w log)
    as (r & w' & evs & E & Hr).
  exists r, w', evs. split; [|exact Hr].
  unfold get_transcript, try_reraising_http, bind, check_video_id.
  destruct video_id as [|c v]; [congruence|].
  unfold ret at 1. cbv zeta. rewrite E.
  inversion Hr; subst; try reflexivity;
    unfold ret;
    rewrite <- (transcript_response_eq (c :: v) None proxy es);
    destruct (format_loop es); reflexivity.
Qed.

(** A request for a transcript in one language, of a non-empty
    [video_id]. *)
Lemma get_transcript_with_language_run (language_code video_id : pystr)
    (proxy : option pystr) (w : World) (log : list event) :
  video_id <> [] ->
  exists r w' evs,
    get_transcript_with_language p language_code video_id proxy (w, log)
    = (match r with
       | inl e => inl e
       | inr es =>
           inr (transcript_response video_id (Some language_code) proxy es)
       end, (w', log ++ evs))
    /\ single_attempt language_code video_id proxy evs r.
Proof.
  intros Hv.
  unfold get_transcript_with_language, try_reraising_http, bind,
    check_video_id.
  destruct video_id as [|c v]; [congruence|].
  unfold ret at 1. cbv zeta.
  replace (match proxies_of proxy
                 return Comp World pystr (list CaptionEntry) with
           | Some px =>
               YouTubeTranscriptApi_get_transcript p (c :: v)
                 (Some [language_code]) (Some px)
           | None =>
               YouTubeTranscriptApi_get_transcript p (c :: v)
                 (Some [language_code]) None
           end)
    with (YouTubeTranscriptApi_get_transcript p (c :: v)
            (Some [language_code]) (proxies_of proxy))
    by (destruct (proxies_of proxy); reflexivity).
  run_call.
  destruct (api_get_transcript p (c :: v) (Some [language_code])
              (proxies_of proxy) w) as [[m|es] w1]; run_call.
  - destruct (api_list_transcripts p (c :: v) w1) as [[m'|tl] w2]; run_call;
      eexists (inl _), _, _; (split; [tidy_log; reflexivity | constructor]).
  - exists (inr es). do 2 eexists. split; [|constructor].
    rewrite <- (transcript_response_eq (c :: v) (Some language_code) proxy es).
    destruct (format_loop es); reflexivity.
Qed.

(** A request for the languages of a non-empty [video_id]: one call, made
    without any proxy. *)
Lemma get_available_languages_run (video_id : pystr) (proxy : option pystr)
    (w : World) (log : list event) :
  video_id <> [] ->
  get_available_languages p video_id proxy (w, log)
  = (match fst (api_list_transcripts p video_id w) with
     | inl m => inl (map_languages_error m)
     | inr tl => inr (languages_response video_id proxy tl)
     end,
     (snd (api_list_transcripts p video_id w),
      log ++ [EvListTranscripts video_id
                (fst (api_list_transcripts p video_id w))])).
Proof.
  intros Hv.
  unfold get_available_languages, try_reraising_http, bind, check_video_id.
  destruct video_id as [|c v]; [congruence|].
  unfold ret at 1. cbv zeta.
  replace (match proxies_of proxy
                 return Comp World pystr TranscriptList with
           | Some _ => YouTubeTranscriptApi_list_transcripts p (c :: v)
           | None => YouTubeTranscriptApi_list_transcripts p (c :: v)
           end)
    with (YouTubeTranscriptApi_list_transcripts p (c :: v))
    by (destruct (proxies_of proxy); reflexivity).
  run_call.
  destruct (api_list_transcripts p (c :: v) w) as [[m|tl] w1]; run_call.
  - unfold map_languages_error.
    destruct (contains (lit "Video unavailable") m); reflexivity.
  - unfold languages_response. rewrite descriptors_from. reflexivity.
Qed.

End Runs.

(** ** Reading the responses *)

Lemma field_transcript (video_id : pystr) (language proxy : option pystr)
    (es : list CaptionEntry) :
  field "transcript" (transcript_response video_id language proxy es)
  = Some (JArr (map formatted_entry es)).
Proof.
  unfold transcript_response. rewrite format_loop_eq.
  destruct language; reflexivity.
Qed.


Lemma field_full_text (video_id : pystr) (language proxy : option pystr)
    (es : list CaptionEntry) :
  field "full_text" (transcript_response video_id language proxy es)
  = Some (JStr (strip (join (lit " ") (map text es)))).
Proof.
  rewrite <- full_text_eq. unfold transcript_response.
  destruct language; reflexivity.
Qed.

Lemma field_proxy_used (video_id : pystr) (language proxy : option pystr)
    (es : list CaptionEntry) :
  field "proxy_used" (transcript_response video_id language proxy es)
  = Some (JBool (is_not_None proxy)).
Proof.
  unfold transcript_response. destruct language; reflexivity.
Qed.

Lemma field_language (video_id : pystr) (language proxy : option pystr)
    (es : list CaptionEntry) :
  field "language" (transcript_response video_id language proxy es)
  = option_map JStr language.
Proof.
  unfold transcript_response. destruct language; reflexivity.
Qed.

Lemma last_event_app (log : list event) (ev : event) :
  last_event (log ++ [ev]) = Some ev.
Proof.
  unfold last_event. rewrite rev_app_distr. reflexivity.
Qed.

(** A chain that delivers entries got them from the last call it made. *)
Lemma ordered_fallback_last (video_id : pystr) (proxy : option pystr)
    (log evs : list event) (es : list CaptionEntry) :
  ordered_fallback video_id proxy evs (inr es) ->
  exists ev, last_event (log ++ evs) = Some ev /\ entries_of ev = Some es.
Proof.
  intros H. inversion H; subst; eexists.
  - split; [apply last_event_app | reflexivity].
  - split;
      [change [?a; ?b] with ([a] ++ [b]);
       rewrite app_assoc; apply last_event_app
      | reflexivity].
  - split;
      [change [?a; ?b; ?c; ?d; ?e] with ([a; b; c; d] ++ [e]);
       rewrite app_assoc; apply last_event_app
      | reflexivity].
Qed.

(** ** An empty video id *)

Section EmptyVideoId.

Context {World : Type} (p : Provider World).

Lemma get_transcript_empty (proxy : option pystr) (st : World * list event) :
  get_transcript p [] proxy st = (inl invalid_video_id, st).
Proof. reflexivity. Qed.

Lemma get_transcript_with_language_empty (language_code : pystr)
    (proxy : option pystr) (st : World * list event) :
  get_transcript_with_language p language_code [] proxy st
  = (inl invalid_video_id, st).
Proof. reflexivity. Qed.

Lemma get_available_languages_empty (proxy : option pystr)
    (st : World * list event) :
  get_available_languages p [] proxy st = (inl invalid_video_id, st).
Proof. reflexivity. Qed.

End EmptyVideoId.

(** ** The response contract *)



(** C7.  With an empty [video_id] each of the three operations fails with
    the 400 error and leaves the world and the log of provider calls as
    they were: no call into the provider is made. *)
Theorem empty_video_id_is_refused_before_any_call
    {World : Type} (p : Provider World)
    (language_code : pystr) (proxy : option pystr)
    (st : World * list event) :
  get_transcript p [] proxy st
  = (inl (HTTPException 400 (lit "Invalid YouTube video ID or URL")), st)
  /\ get_transcript_with_language p language_code [] proxy st
     = (inl (HTTPException 400 (lit "Invalid YouTube video ID or URL")), st)
  /\ get_available_languages p [] proxy st
     = (inl (HTTPException 400 (lit "Invalid YouTube video ID or URL")), st).
Proof.
  split; [|split].
  - apply get_transcript_empty.
  - apply get_transcript_with_language_empty.
  - apply get_available_languages_empty.
Qed.

(** C9.  In a successful response of any of the three operations
    [proxy_used] tells whether the [proxy] parameter was present, whatever
    was forwarded to the provider; an empty [proxy] counts as present. *)
Theorem proxy_used_tells_presence
    {World : Type} (p : Provider World)
    (language_code video_id : pystr) (proxy : option pystr)
    (st st' : World * list event) (resp : json) :
  get_transcript p video_id proxy st = (inr resp, st')
  \/ get_transcript_with_language p language_code video_id proxy st
     = (inr resp, st')
  \/ get_available_languages p video_id proxy st = (inr resp, st') ->
  field "proxy_used" resp
  = Some (JBool match proxy with Some _ => true | None => false end).
Proof.
  intros H. destruct st as [w log].
  assert (Hv : video_id <> []).
  { intros ->. destruct H as [H|[H|H]].
    - rewrite get_transcript_empty in H. discriminate.
    - rewrite get_transcript_with_language_empty in H. discriminate.
    - rewrite get_available_languages_empty in H. discriminate. }
  destruct H as [H|[H|H]].
  - destruct (get_transcript_run p proxy w log Hv)
      as (r & w' & evs & E & _).
    rewrite E in H. destruct r as [e|es]; [discriminate|].
    injection H as <- _. apply field_proxy_used.
  - destruct (get_transcript_with_language_run p language_code proxy w log Hv)
      as (r & w' & evs & E & _).
    rewrite E in H. destruct r as [e|es]; [discriminate|].
    injection H as <- _. apply field_proxy_used.
  - rewrite (get_available_languages_run p proxy w log Hv) in H.
    destruct (fst (api_list_transcripts p video_id w)); [discriminate|].
    injection H as <- _. reflexivity.
Qed.

Lemma proxy_used_tells_presence_witness :
  get_transcript english_only rick (Some []) (tt, [])
  = (inr (transcript_response rick None (Some []) sample_entries),
     (tt, [EvGetTranscript rick None None (inr sample_entries)]))
  /\ field "proxy_used"
       (transcript_response rick None (Some []) sample_entries)
     = Some (JBool true).
Proof.
  split; [vm_compute; reflexivity|].
  apply (@proxy_used_tells_presence
           unit english_only (lit "en") rick (Some []) (tt, [])
           (tt, [EvGetTranscript rick None None (inr sample_entries)])).
  left. vm_compute. reflexivity.
Defined.

(** ** The default operation *)

Lemma startswith_app_l (needle hay rest : pystr) :
  startswith needle hay = true -> startswith needle (hay ++ rest) = true.
Proof.
  revert hay.
  induction needle as [|a needle IH]; intros hay; [reflexivity|].
  destruct hay as [|b hay]; simpl; [discriminate|].
  destruct (N.eqb a b); simpl; [apply IH | discriminate].
Qed.

Lemma contains_app_l (needle hay rest : pystr) :
  contains needle hay = true -> contains needle (hay ++ rest) = true.
Proof.
  induction hay as [|b hay IH]; intros H.
  - simpl in H. rewrite orb_false_r in H.
    destruct needle; [|discriminate].
    destruct rest; reflexivity.
  - simpl in H. apply orb_true_iff in H. destruct H as [H|H].
    + change ((b :: hay) ++ rest) with (b :: hay ++ rest).
      apply startswith_contains.
      apply (startswith_app_l needle (b :: hay) rest H).
    + simpl. rewrite (IH H). apply orb_true_r.
Qed.

(** C4.  When the three attempts of [get_transcript] fail one after the
    other, the operation fails with status 503; the detail names the three
    remedies (a different video, a proxy, a later retry) and ends with the
    message of the first attempt's error. *)
Theorem exhausted_fallback_is_503
    {World : Type} (p : Provider World)
    (video_id : pystr) (proxy : option pystr)
    (w : World) (log : list event) (m1 m2 m3 : pystr)
    (st1 st2 st3 : World * list event) :
  video_id <> [] ->
  first_attempt p video_id (proxies_of proxy) (w, log) = (inl m1, st1) ->
  second_attempt p video_id st1 = (inl m2, st2) ->
  third_attempt p video_id st2 = (inl m3, st3) ->
  exists detail : pystr,
    get_transcript p video_id proxy (w, log)
    = (inl (HTTPException 503 detail), st3)
    /\ detail
       = lit "YouTube is blocking requests. Try: 1) Different video ID, 2) Add ?proxy=YOUR_PROXY_URL, 3) Try again later. Original error: "
         ++ m1
    /\ contains (lit "1) Different video ID") detail = true
    /\ contains (lit "2) Add ?proxy=YOUR_PROXY_URL") detail = true
    /\ contains (lit "3) Try again later") detail = true
    /\ contains m1 detail = true.
Proof.
  intros Hv H1 H2 H3.
  exists (blocked_hint ++ m1). split; [|split; [reflexivity|]].
  - destruct video_id as [|c v]; [congruence|].
    cbv beta iota zeta delta
      [get_transcript try_reraising_http bind check_video_id ret raise
       fetch_with_fallback try_provider].
    rewrite H1, H2, H3. reflexivity.
  - split; [|split; [|split]].
    + apply contains_app_l. vm_compute. reflexivity.
    + apply contains_app_l. vm_compute. reflexivity.
    + apply contains_app_l. vm_compute. reflexivity.
    + apply contains_suffix.
Qed.

Lemma exhausted_fallback_is_503_witness :
  rick <> []
  /\ first_attempt refusing rick (proxies_of None) (tt, [])
     = (inl no_transcript_message,
        (tt, [EvGetTranscript rick None None (inl no_transcript_message)]))
  /\ exists detail : pystr,
       get_transcript refusing rick None (tt, [])
       = (inl (HTTPException 503 detail),
          (tt, [EvGetTranscript rick None None (inl no_transcript_message);
                EvGetTranscript rick (Some en_variants) None
                  (inl no_transcript_message);
                EvListTranscripts rick (inl no_transcript_message)]))
       /\ detail
          = lit "YouTube is blocking requests. Try: 1) Different video ID, 2) Add ?proxy=YOUR_PROXY_URL, 3) Try again later. Original error: "
            ++ no_transcript_message
       /\ contains (lit "1) Different video ID") detail = true
       /\ contains (lit "2) Add ?proxy=YOUR_PROXY_URL") detail = true
       /\ contains (lit "3) Try again later") detail = true
       /\ contains no_transcript_message detail = true.
Proof.
  split; [discriminate|]. split; [reflexivity|].
  apply (@exhausted_fallback_is_503
           unit refusing rick None tt []
           no_transcript_message no_transcript_message no_transcript_message
           (tt, [EvGetTranscript rick None None (inl no_transcript_message)])
           (tt, [EvGetTranscript rick None None (inl no_transcript_message);
                 EvGetTranscript rick (Some en_variants) None
                   (inl no_transcript_message)])).
  - discriminate.
  - reflexivity.
  - reflexivity.
  - reflexivity.
Defined.

(** C3 (counterexample).  With a provider that refuses every call with a
    message containing [No transcripts were found], the three attempts are
    exhausted and the operation answers 503, not 404. *)
Lemma exhausted_fallback_not_found_counterexample :
  contains (lit "No transcripts were found") no_transcript_message = true
  /\ fst (first_attempt refusing rick (proxies_of None) (tt, []))
     = inl no_transcript_message
  /\ ~ (exists (d : pystr) (st : unit * list event),
          get_transcript refusing rick None (tt, [])
          = (inl (HTTPException 404 d), st))
  /\ fst (get_transcript refusing rick None (tt, []))
     = inl (HTTPException 503 (blocked_hint ++ no_transcript_message)).
Proof.
  split; [vm_compute; reflexivity|]. split; [reflexivity|]. split.
  - intros (d & st & H). vm_compute in H. discriminate.
  - reflexivity.
Qed.

(** ** The language-specific operation *)

(** A failed fetch is followed by the listing of the transcripts, and
    whatever the listing answers the same error is raised. *)
Lemma failed_language_fetch_run
    {World : Type} (p : Provider World)
    (language_code video_id : pystr) (proxy : option pystr)
    (w : World) (log : list event) (msg : pystr) (w1 : World) :
  video_id <> [] ->
  api_get_transcript p video_id (Some [language_code]) (proxies_of proxy) w
  = (inl msg, w1) ->
  get_transcript_with_language p language_code video_id proxy (w, log)
  = (inl (language_not_found language_code),
     (snd (api_list_transcripts p video_id w1),
      log ++ [EvGetTranscript video_id (Some [language_code])
                (proxies_of proxy) (inl msg);
              EvListTranscripts video_id
                (fst (api_list_transcripts p video_id w1))])).
Proof.
  intros Hv Hf.
  unfold get_transcript_with_language, try_reraising_http, bind,
    check_video_id.
  destruct video_id as [|c v]; [congruence|].
  unfold ret at 1. cbv zeta.
  destruct (proxies_of proxy) as [px|];
    cbv beta iota zeta delta
      [try_provider try_except lift bind raise ret
       YouTubeTranscriptApi_get_transcript
       YouTubeTranscriptApi_list_transcripts logged fst snd];
    rewrite Hf;
    destruct (api_list_transcripts p (c :: v) w1) as [[m'|tl] w2];
    rewrite <- app_assoc; reflexivity.
Qed.

(** C2, at the failing input.  The video has an English transcript only and
    French is asked for: the fetch fails, the listing succeeds, and the
    error that lists the available languages is raised inside the [try]
    whose [except Exception] replaces it; the detail that reaches the
    caller names the requested language and does not mention [en]. *)
Theorem available_languages_hint_is_lost :
  get_transcript_with_language english_only (lit "fr") rick None (tt, [])
  = (inl (HTTPException 404
            (lit "No transcripts found for this video in language: fr")),
     (tt, [EvGetTranscript rick (Some [lit "fr"]) None
             (inl no_transcript_message);
           EvListTranscripts rick (inr [english])]))
  /\ contains (lit "en")
       (lit "No transcripts found for this video in language: fr") = false
  /\ contains (lit "Available languages")
       (lit "No transcripts found for this video in language: fr") = false.
Proof.
  split; [|split]; vm_compute; reflexivity.
Qed.

(** C10.  In the language-specific operation a failed fetch always ends in
    the 404 error naming the requested language, whatever the message of
    the provider's error and whatever the listing of the transcripts does
    afterwards; and no request at all ends in a 500 error: the statuses of
    the errors of this operation are 400 and 404. *)
Theorem failed_language_fetch_is_404
    {World : Type} (p : Provider World)
    (language_code video_id : pystr) (proxy : option pystr)
    (w : World) (log : list event) :
  (forall (msg : pystr) (w1 : World),
     video_id <> [] ->
     api_get_transcript p video_id (Some [language_code]) (proxies_of proxy) w
     = (inl msg, w1) ->
     exists st' : World * list event,
       get_transcript_with_language p language_code video_id proxy (w, log)
       = (inl (HTTPException 404
                 (lit "No transcripts found for this video in language: "
                  ++ language_code)), st'))
  /\ (forall (e : exn) (st' : World * list event),
        get_transcript_with_language p language_code video_id proxy (w, log)
        = (inl e, st') ->
        status_of e = Some 400%Z \/ status_of e = Some 404%Z).
Proof.
  split.
  - intros msg w1 Hv Hf. eexists.
    apply failed_language_fetch_run with (1 := Hv) (2 := Hf).
  - intros e st' H.
    destruct video_id as [|c v].
    + rewrite get_transcript_with_language_empty in H.
      injection H as <- _. left. reflexivity.
    + destruct (get_transcript_with_language_run
                  p language_code proxy w log (video_id := c :: v))
        as (r & w' & evs & E & Hr); [discriminate|].
      rewrite E in H. inversion Hr; subst.
      * discriminate.
      * injection H as <- _. right. reflexivity.
Qed.

Lemma failed_language_fetch_is_404_witness :
  rick <> []
  /\ api_get_transcript english_only rick (Some [lit "fr"]) (proxies_of None) tt
     = (inl no_transcript_message, tt)
  /\ exists st' : unit * list event,
       get_transcript_with_language english_only (lit "fr") rick None (tt, [])
       = (inl (HTTPException 404
                 (lit "No transcripts found for this video in language: "
                  ++ lit "fr")), st').
Proof.
  split; [discriminate|]. split; [reflexivity|].
  apply (proj1 (@failed_language_fetch_is_404
                  unit english_only (lit "fr") rick None tt [])
               no_transcript_message tt).
  - discriminate.
  - reflexivity.
Defined.

(** ** The language listing *)

(** C8.  [get_available_languages] never hands [proxy] to the provider:
    two requests that differ in [proxy] only, started from the same world,
    make the same call (one listing of the transcripts of [video_id], when
    it is not empty), leave the same world and log, and have outcomes that
    are the same error or two responses equal outside [proxy_used]. *)
Theorem language_listing_ignores_proxy
    {World : Type} (p : Provider World)
    (video_id : pystr) (proxy1 proxy2 : option pystr)
    (st : World * list event) :
  snd (get_available_languages p video_id proxy1 st)
  = snd (get_available_languages p video_id proxy2 st)
  /\ same_up_to "proxy_used"
       (fst (get_available_languages p video_id proxy1 st))
       (fst (get_available_languages p video_id proxy2 st))
  /\ match video_id with
     | [] => snd (snd (get_available_languages p video_id proxy1 st)) = snd st
     | _ :: _ =>
         snd (snd (get_available_languages p video_id proxy1 st))
         = snd st
           ++ [EvListTranscripts video_id
                 (fst (api_list_transcripts p video_id (fst st)))]
     end.
Proof.
  destruct st as [w log].
  destruct video_id as [|c v].
  - rewrite !get_available_languages_empty. cbn [fst snd].
    repeat split; reflexivity.
  - assert (Hv : c :: v <> []) by discriminate.
    rewrite !(get_available_languages_run p _ w log Hv). cbn [fst snd].
    split; [reflexivity|]. split; [|reflexivity].
    destruct (fst (api_list_transcripts p (c :: v) w)) as [m|tl];
      reflexivity.
Qed.

(** * Further properties of the handlers *)

(** ** Substrings and stripping *)

Lemma startswith_iff (needle hay : pystr) :
  startswith needle hay = true <-> exists rest, hay = needle ++ rest.
Proof.
  split.
  - revert hay.
    induction needle as [|a needle IH]; intros hay H.
    + exists hay. reflexivity.
    + destruct hay as [|b hay]; [discriminate|].
      simpl in H. apply andb_true_iff in H. destruct H as [Hab H].
      apply N.eqb_eq in Hab. subst b.
      destruct (IH hay H) as [rest ->]. exists rest. reflexivity.
  - intros [rest ->]. apply startswith_app.
Qed.

(** [needle in hay] holds exactly when [hay] is [needle] with something
    before and something after. *)
Lemma contains_iff (needle hay : pystr) :
  contains needle hay = true
  <-> exists before after, hay = before ++ needle ++ after.
Proof.
  split.
  - induction hay as [|b hay IH]; intros H.
    + simpl in H. rewrite orb_false_r in H.
      apply startswith_iff in H. destruct H as [rest H].
      exists [], rest. exact H.
    + simpl in H. apply orb_true_iff in H. destruct H as [H|H].
      * apply (proj1 (startswith_iff needle (b :: hay))) in H.
        destruct H as [rest H]. exists [], rest. exact H.
      * destruct (IH H) as (before & after & ->).
        exists (b :: before), after. reflexivity.
  - intros (before & after & ->). apply contains_app.
Qed.

Lemma lstrip_head (s : pystr) :
  match lstrip s with
  | [] => True
  | c :: _ => is_space c = false
  end.
Proof.
  induction s as [|c s IH]; simpl; [exact I|].
  destruct (is_space c) eqn:Hc; [exact IH | exact Hc].
Qed.

Lemma lstrip_fixed (s : pystr) :
  match s with
  | [] => True
  | c :: _ => is_space c = false
  end ->
  lstrip s = s.
Proof.
  destruct s as [|c s]; simpl; [reflexivity|].
  intros ->. reflexivity.
Qed.

Lemma lstrip_lstrip (s : pystr) : lstrip (lstrip s) = lstrip s.
Proof. apply lstrip_fixed, lstrip_head. Qed.

Lemma lstrip_app_blank (s t : pystr) :
  forallb is_space s = true -> lstrip (s ++ t) = lstrip t.
Proof.
  induction s as [|c s IH]; simpl; [reflexivity|].
  destruct (is_space c); simpl; [exact IH | discriminate].
Qed.

(** Stripping the right end leaves a first character that is not
    whitespace where it is. *)
Lemma rstrip_cons_keep (c : N) (s : pystr) :
  is_space c = false -> rstrip (c :: s) = c :: rstrip s.
Proof.
  intros Hc. unfold rstrip. simpl rev.
  destruct (forallb is_space (rev s)) eqn:Hs.
  - rewrite lstrip_app_blank by exact Hs.
    rewrite (lstrip_all_space _ Hs). simpl. rewrite Hc. reflexivity.
  - rewrite lstrip_app_keep by exact Hs.
    rewrite rev_app_distr. reflexivity.
Qed.

Lemma strip_head (s : pystr) :
  match strip s with
  | [] => True
  | c :: _ => is_space c = false
  end.
Proof.
  unfold strip. pose proof (lstrip_head s) as H.
  destruct (lstrip s) as [|c t]; [exact I|].
  rewrite rstrip_cons_keep by exact H. exact H.
Qed.

Lemma strip_last (s : pystr) :
  match rev (strip s) with
  | [] => True
  | c :: _ => is_space c = false
  end.
Proof.
  unfold strip, rstrip. rewrite rev_involutive. apply lstrip_head.
Qed.

Lemma strip_strip (s : pystr) : strip (strip s) = strip s.
Proof.
  unfold strip at 1.
  rewrite (lstrip_fixed (strip s) (strip_head s)).
  unfold strip, rstrip. rewrite rev_involutive, lstrip_lstrip. reflexivity.
Qed.




(** ** The default operation, attempt by attempt *)

(** What [get_transcript] makes of the outcome of its fallback chain. *)
Lemma get_transcript_of_chain
    {World : Type} (p : Provider World)
    (video_id : pystr) (proxy : option pystr)
    (st st' : World * list event) (r : exn + list CaptionEntry) :
  video_id <> [] ->
  fetch_with_fallback p video_id (proxies_of proxy) st = (r, st') ->
  get_transcript p video_id proxy st
  = (match r with
     | inl (HTTPException c d) => inl (HTTPException c d)
     | inl (Exception m) => inl (map_transcript_error m)
     | inr es => inr (transcript_response video_id None proxy es)
     end, st').
Proof.
  intros Hv H.
  unfold get_transcript, try_reraising_http, bind, check_video_id.
  destruct video_id as [|c v]; [congruence|].
  unfold ret at 1. cbv zeta. rewrite H.
  destruct r as [[code d|m]|es]; try reflexivity.
  unfold ret.
  rewrite <- (transcript_response_eq (c :: v) None proxy es).
  destruct (format_loop es); reflexivity.
Qed.

(** X1.  When the first attempt of [get_transcript] delivers entries, the
    request ends there: the response is built from these entries, and the
    world and the log are the ones the first call left, so neither the
    English-only fetch nor the listing is attempted. *)
Theorem first_success_ends_the_request
    {World : Type} (p : Provider World)
    (video_id : pystr) (proxy : option pystr)
    (st st1 : World * list event) (es : list CaptionEntry) :
  video_id <> [] ->
  first_attempt p video_id (proxies_of proxy) st = (inr es, st1) ->
  get_transcript p video_id proxy st
  = (inr (transcript_response video_id None proxy es), st1).
Proof.
  intros Hv H1.
  apply get_transcript_of_chain with (r := inr es); [exact Hv|].
  unfold fetch_with_fallback, try_provider. rewrite H1. reflexivity.
Qed.

Lemma first_success_ends_the_request_witness :
  rick <> []
  /\ first_attempt english_only rick (proxies_of (Some sample_proxy)) (tt, [])
     = (inr sample_entries,
        (tt, [EvGetTranscript rick None (proxies_of (Some sample_proxy))
                (inr sample_entries)]))
  /\ get_transcript english_only rick (Some sample_proxy) (tt, [])
     = (inr (transcript_response rick None (Some sample_proxy) sample_entries),
        (tt, [EvGetTranscript rick None (proxies_of (Some sample_proxy))
                (inr sample_entries)])).
Proof.
  split; [discriminate|]. split; [reflexivity|].
  apply (@first_success_ends_the_request
           unit english_only rick (Some sample_proxy) (tt, [])).
  - discriminate.
  - reflexivity.
Defined.

(** X2.  When the first attempt fails and the fetch restricted to [en],
    [en-US], [en-GB] delivers entries, the response is built from the
    entries of that second fetch and the listing is not attempted. *)
Theorem second_success_ends_the_request
    {World : Type} (p : Provider World)
    (video_id : pystr) (proxy : option pystr)
    (st st1 st2 : World * list event) (m1 : pystr) (es : list CaptionEntry) :
  video_id <> [] ->
  first_attempt p video_id (proxies_of proxy) st = (inl m1, st1) ->
  second_attempt p video_id st1 = (inr es, st2) ->
  get_transcript p video_id proxy st
  = (inr (transcript_response video_id None proxy es), st2).
Proof.
  intros Hv H1 H2.
  apply get_transcript_of_chain with (r := inr es); [exact Hv|].
  unfold fetch_with_fallback, try_provider. rewrite H1, H2. reflexivity.
Qed.

Lemma second_success_ends_the_request_witness :
  rick <> []
  /\ first_attempt flaky rick (proxies_of None) (0%nat, [])
     = (inl (lit "Too Many Requests"),
        (1%nat, [EvGetTranscript rick None None
                   (inl (lit "Too Many Requests"))]))
  /\ get_transcript flaky rick None (0%nat, [])
     = (inr (transcript_response rick None None sample_entries),
        (2%nat, [EvGetTranscript rick None None
                   (inl (lit "Too Many Requests"));
                 EvGetTranscript rick (Some en_variants) None
                   (inr sample_entries)])).
Proof.
  split; [discriminate|]. split; [reflexivity|].
  apply (@second_success_ends_the_request
           nat flaky rick None (0%nat, [])
           (1%nat, [EvGetTranscript rick None None
                      (inl (lit "Too Many Requests"))])
           (2%nat, [EvGetTranscript rick None None
                      (inl (lit "Too Many Requests"));
                    EvGetTranscript rick (Some en_variants) None
                      (inr sample_entries)])
           (lit "Too Many Requests")).
  - discriminate.
  - reflexivity.
  - reflexivity.
Defined.

(** X3.  When the first two attempts fail and the third one (listing,
    search for [en], [en-US], fetch) delivers entries, the response is
    built from the entries of that fetch. *)
Theorem third_success_ends_the_request
    {World : Type} (p : Provider World)
    (video_id : pystr) (proxy : option pystr)
    (st st1 st2 st3 : World * list event) (m1 m2 : pystr)
    (es : list CaptionEntry) :
  video_id <> [] ->
  first_attempt p video_id (proxies_of proxy) st = (inl m1, st1) ->
  second_attempt p video_id st1 = (inl m2, st2) ->
  third_attempt p video_id st2 = (inr es, st3) ->
  get_transcript p video_id proxy st
  = (inr (transcript_response video_id None proxy es), st3).
Proof.
  intros Hv H1 H2 H3.
  apply get_transcript_of_chain with (r := inr es); [exact Hv|].
  unfold fetch_with_fallback, try_provider. rewrite H1, H2, H3. reflexivity.
Qed.

Lemma third_success_ends_the_request_witness :
  rick <> []
  /\ third_attempt listed_only rick
       (tt, [EvGetTranscript rick None None (inl (lit "Too Many Requests"));
             EvGetTranscript rick (Some en_variants) None
               (inl (lit "Too Many Requests"))])
     = (inr sample_entries,
        (tt, [EvGetTranscript rick None None (inl (lit "Too Many Requests"));
              EvGetTranscript rick (Some en_variants) None
                (inl (lit "Too Many Requests"));
              EvListTranscripts rick (inr [english]);
              EvFindTranscript [english] en_preferred (inr english);
              EvFetch english (inr sample_entries)]))
  /\ get_transcript listed_only rick None (tt, [])
     = (inr (transcript_response rick None None sample_entries),
        (tt, [EvGetTranscript rick None None (inl (lit "Too Many Requests"));
              EvGetTranscript rick (Some en_variants) None
                (inl (lit "Too Many Requests"));
              EvListTranscripts rick (inr [english]);
              EvFindTranscript [english] en_preferred (inr english);
              EvFetch english (inr sample_entries)])).
Proof.
  split; [discriminate|]. split; [reflexivity|].
  apply (@third_success_ends_the_request
           unit listed_only rick None (tt, [])
           (tt, [EvGetTranscript rick None None
                   (inl (lit "Too Many Requests"))])
           (tt, [EvGetTranscript rick None None
                   (inl (lit "Too Many Requests"));
                 EvGetTranscript rick (Some en_variants) None
                   (inl (lit "Too Many Requests"))])
           _ (lit "Too Many Requests") (lit "Too Many Requests")).
  - discriminate.
  - reflexivity.
  - reflexivity.
  - reflexivity.
Defined.

(** The third attempt, call by call. *)
Lemma third_attempt_run
    {World : Type} (p : Provider World)
    (video_id : pystr) (w : World) (log : list event) :
  third_attempt p video_id (w, log)
  = match api_list_transcripts p video_id w with
    | (inl m, w1) => (inl m, (w1, log ++ [EvListTranscripts video_id (inl m)]))
    | (inr tl, w1) =>
        match api_find_transcript p tl en_preferred w1 with
        | (inl m, w2) =>
            (inl m, (w2, log ++ [EvListTranscripts video_id (inr tl);
                                 EvFindTranscript tl en_preferred (inl m)]))
        | (inr t, w2) =>
            (fst (api_fetch p t w2),
             (snd (api_fetch p t w2),
              log ++ [EvListTranscripts video_id (inr tl);
                      EvFindTranscript tl en_preferred (inr t);
                      EvFetch t (fst (api_fetch p t w2))]))
        end
    end.
Proof.
  cbv beta iota zeta delta
    [third_attempt bind YouTubeTranscriptApi_list_transcripts
     find_transcript fetch logged fst snd].
  destruct (api_list_transcripts p video_id w) as [[m|tl] w1];
    [reflexivity|].
  destruct (api_find_transcript p tl en_preferred w1) as [[m|t] w2].
  - rewrite <- app_assoc. reflexivity.
  - destruct (api_fetch p t w2) as [r w3].
    rewrite <- !app_assoc. reflexivity.
Qed.

(** X4.  The third attempt stops at its first failing call: a failed
    listing is followed by no search and no fetch, and a failed search (no
    [en] or [en-US] transcript in the list) by no fetch.  In both cases the
    request, its first two attempts having failed, ends in the 503 error
    that carries the message of the first attempt, not the message of the
    listing or of the search. *)
Theorem third_attempt_stops_at_first_failure
    {World : Type} (p : Provider World)
    (video_id : pystr) (proxy : option pystr)
    (st st1 : World * list event) (w2 w3 : World) (log2 : list event)
    (m1 m2 m3 : pystr) :
  video_id <> [] ->
  first_attempt p video_id (proxies_of proxy) st = (inl m1, st1) ->
  second_attempt p video_id st1 = (inl m2, (w2, log2)) ->
  (api_list_transcripts p video_id w2 = (inl m3, w3) ->
   get_transcript p video_id proxy st
   = (inl (HTTPException 503 (blocked_hint ++ m1)),
      (w3, log2 ++ [EvListTranscripts video_id (inl m3)])))
  /\ (forall (tl : TranscriptList) (w' : World),
        api_list_transcripts p video_id w2 = (inr tl, w') ->
        api_find_transcript p tl en_preferred w' = (inl m3, w3) ->
        get_transcript p video_id proxy st
        = (inl (HTTPException 503 (blocked_hint ++ m1)),
           (w3, log2 ++ [EvListTranscripts video_id (inr tl);
                         EvFindTranscript tl en_preferred (inl m3)]))).
Proof.
  intros Hv H1 H2. split.
  - intros Hl.
    apply get_transcript_of_chain
      with (r := inl (HTTPException 503 (blocked_hint ++ m1))); [exact Hv|].
    unfold fetch_with_fallback, try_provider.
    rewrite H1, H2, third_attempt_run, Hl. reflexivity.
  - intros tl w' Hl Hf.
    apply get_transcript_of_chain
      with (r := inl (HTTPException 503 (blocked_hint ++ m1))); [exact Hv|].
    unfold fetch_with_fallback, try_provider.
    rewrite H1, H2, third_attempt_run, Hl, Hf. reflexivity.
Qed.

Lemma third_attempt_stops_at_first_failure_witness :
  rick <> []
  /\ api_list_transcripts refusing rick tt = (inl no_transcript_message, tt)
  /\ get_transcript refusing rick None (tt, [])
     = (inl (HTTPException 503 (blocked_hint ++ no_transcript_message)),
        (tt,
         [EvGetTranscript rick None None (inl no_transcript_message);
          EvGetTranscript rick (Some en_variants) None
            (inl no_transcript_message)]
         ++ [EvListTranscripts rick (inl no_transcript_message)])).
Proof.
  split; [discriminate|]. split; [reflexivity|].
  apply (proj1 (@third_attempt_stops_at_first_failure
                  unit refusing rick None (tt, [])
                  (tt, [EvGetTranscript rick None None
                          (inl no_transcript_message)])
                  tt tt
                  [EvGetTranscript rick None None (inl no_transcript_message);
                   EvGetTranscript rick (Some en_variants) None
                     (inl no_transcript_message)]
                  no_transcript_message no_transcript_message
                  no_transcript_message
                  ltac:(discriminate) eq_refl eq_refl)).
  reflexivity.
Defined.

(** ** Edge cases of the transcript responses *)

(** X5.  An empty caption sequence is a success, not a failure: when the
    first attempt returns no entry at all, [get_transcript] answers with
    an empty [transcript], an empty [full_text] and [total_entries] 0, and
    does not fall back to the English-only fetch. *)
Theorem empty_transcript_is_a_success
    {World : Type} (p : Provider World)
    (video_id : pystr) (proxy : option pystr)
    (st st1 : World * list event) :
  video_id <> [] ->
  first_attempt p video_id (proxies_of proxy) st = (inr [], st1) ->
  get_transcript p video_id proxy st
  = (inr (JObj [(lit "video_id", JStr video_id);
                (lit "transcript", JArr []);
                (lit "full_text", JStr []);
                (lit "total_entries", JInt 0);
                (lit "proxy_used",
                 JBool match proxy with Some _ => true | None => false end)]),
     st1).
Proof.
  intros Hv H1.
  apply get_transcript_of_chain with (r := inr []); [exact Hv|].
  unfold fetch_with_fallback, try_provider. rewrite H1. reflexivity.
Qed.

Lemma empty_transcript_is_a_success_witness :
  rick <> []
  /\ first_attempt silent rick (proxies_of None) (tt, [])
     = (inr [], (tt, [EvGetTranscript rick None None (inr [])]))
  /\ get_transcript silent rick None (tt, [])
     = (inr (JObj [(lit "video_id", JStr rick);
                   (lit "transcript", JArr []);
                   (lit "full_text", JStr []);
                   (lit "total_entries", JInt 0);
                   (lit "proxy_used", JBool false)]),
        (tt, [EvGetTranscript rick None None (inr [])])).
Proof.
  split; [discriminate|]. split; [reflexivity|].
  apply (@empty_transcript_is_a_success unit silent rick None (tt, [])).
  - discriminate.
  - reflexivity.
Defined.

(** A successful transcript request, of either kind, with the entries it
    was built from. *)
Lemma transcript_success_inv
    {World : Type} (p : Provider World)
    (language_code video_id : pystr) (proxy : option pystr)
    (st st' : World * list event) (resp : json) :
  get_transcript p video_id proxy st = (inr resp, st')
  \/ get_transcript_with_language p language_code video_id proxy st
     = (inr resp, st') ->
  exists (ev : event) (es : list CaptionEntry) (language : option pystr),
    last_event (snd st') = Some ev
    /\ entries_of ev = Some es
    /\ resp = transcript_response video_id language proxy es
    /\ (language = None \/ language = Some language_code).
Proof.
  intros H. destruct st as [w log].
  assert (Hv : video_id <> []).
  { intros ->. destruct H as [H|H].
    - rewrite get_transcript_empty in H. discriminate.
    - rewrite get_transcript_with_language_empty in H. discriminate. }
  destruct H as [H|H].
  - destruct (get_transcript_run p proxy w log Hv)
      as (r & w' & evs & E & Hr).
    rewrite E in H. destruct r as [e|es]; [discriminate|].
    injection H as <- <-.
    destruct (ordered_fallback_last log Hr) as (ev & Hl & He).
    exists ev, es, None. repeat split; try assumption. now left.
  - destruct (get_transcript_with_language_run p language_code proxy w log Hv)
      as (r & w' & evs & E & Hr).
    rewrite E in H. destruct r as [e|es]; [discriminate|].
    injection H as <- <-.
    inversion Hr; subst.
    eexists _, es, (Some language_code).
    split; [apply last_event_app|].
    split; [reflexivity|]. split; [reflexivity|]. now right.
Qed.

(** X6.  The [full_text] of a successful transcript response is already
    stripped: it neither starts nor ends with a whitespace character, and
    stripping it again changes nothing. *)
Theorem full_text_is_trimmed
    {World : Type} (p : Provider World)
    (language_code video_id : pystr) (proxy : option pystr)
    (st st' : World * list event) (resp : json) :
  get_transcript p video_id proxy st = (inr resp, st')
  \/ get_transcript_with_language p language_code video_id proxy st
     = (inr resp, st') ->
  exists t : pystr,
    field "full_text" resp = Some (JStr t)
    /\ strip t = t
    /\ (forall c, hd_error t = Some c -> is_space c = false)
    /\ (forall c, hd_error (rev t) = Some c -> is_space c = false).
Proof.
  intros H.
  destruct (transcript_success_inv p language_code video_id proxy st H)
    as (ev & es & language & _ & _ & -> & _).
  exists (strip (join (lit " ") (map text es))).
  split; [apply field_full_text|].
  split; [apply strip_strip|]. split.
  - intros c Hc.
    pose proof (strip_head (join (lit " ") (map text es))) as Hh.
    destruct (strip (join (lit " ") (map text es))); [discriminate|].
    injection Hc as <-. exact Hh.
  - intros c Hc.
    pose proof (strip_last (join (lit " ") (map text es))) as Hh.
    destruct (rev (strip (join (lit " ") (map text es)))); [discriminate|].
    injection Hc as <-. exact Hh.
Qed.

Lemma full_text_is_trimmed_witness :
  get_transcript english_only rick None (tt, [])
  = (inr (transcript_response rick None None sample_entries),
     (tt, [EvGetTranscript rick None None (inr sample_entries)]))
  /\ exists t : pystr,
       field "full_text" (transcript_response rick None None sample_entries)
       = Some (JStr t)
       /\ strip t = t
       /\ (forall c, hd_error t = Some c -> is_space c = false)
       /\ (forall c, hd_error (rev t) = Some c -> is_space c = false).
Proof.
  split; [vm_compute; reflexivity|].
  apply (@full_text_is_trimmed
           unit english_only (lit "en") rick None (tt, [])
           (tt, [EvGetTranscript rick None None (inr sample_entries)])).
  left. vm_compute. reflexivity.
Defined.






Lemma language_descriptor_inj (t1 t2 : Transcript.t) :
  language_descriptor t1 = language_descriptor t2 -> t1 = t2.
Proof.
  destruct t1 as [l1 c1 g1 x1], t2 as [l2 c2 g2 x2].
  unfold language_descriptor. simpl.
  intros H. injection H as -> -> -> ->. reflexivity.
Qed.




(** ** The language listing, in detail *)

(** X10.  A successful [get_available_languages] made exactly one call,
    the listing of the transcripts of [video_id]; its response echoes
    [video_id], holds one descriptor per listed transcript, in the
    provider's order, each with the four keys [language], [language_code],
    [is_generated], [is_translatable], and [total_languages] is the number
    of listed transcripts. *)
Theorem language_listing_follows_provider
    {World : Type} (p : Provider World)
    (video_id : pystr) (proxy : option pystr)
    (w : World) (log : list event)
    (resp : json) (st' : World * list event) :
  get_available_languages p video_id proxy (w, log) = (inr resp, st') ->
  exists tl : TranscriptList,
    api_list_transcripts p video_id w = (inr tl, fst st')
    /\ snd st' = log ++ [EvListTranscripts video_id (inr tl)]
    /\ field "video_id" resp = Some (JStr video_id)
    /\ field "available_languages" resp
       = Some (JArr (map (fun t =>
                            JObj [(lit "language",
                                   JStr (Transcript.language t));
                                  (lit "language_code",
                                   JStr (Transcript.language_code t));
                                  (lit "is_generated",
                                   JBool (Transcript.is_generated t));
                                  (lit "is_translatable",
                                   JBool (Transcript.is_translatable t))])
                         tl))
    /\ field "total_languages" resp = Some (JInt (Z.of_nat (List.length tl))).
Proof.
  intros H.
  assert (Hv : video_id <> []).
  { intros ->. rewrite get_available_languages_empty in H. discriminate. }
  rewrite (get_available_languages_run p proxy w log Hv) in H.
  destruct (api_list_transcripts p video_id w) as [[m|tl] w1];
    cbn [fst snd] in H; [discriminate|].
  injection H as <- <-. exists tl. cbn [fst snd].
  split; [reflexivity|]. split; [reflexivity|]. split; [reflexivity|].
  split; [reflexivity|].
  unfold languages_response. rewrite length_map. reflexivity.
Qed.

Lemma language_listing_follows_provider_witness :
  get_available_languages english_only rick (Some sample_proxy) (tt, [])
  = (inr (languages_response rick (Some sample_proxy) [english]),
     (tt, [EvListTranscripts rick (inr [english])]))
  /\ exists tl : TranscriptList,
       api_list_transcripts english_only rick tt
       = (inr tl, fst (tt, [EvListTranscripts rick (inr [english])]))
       /\ snd (tt, [EvListTranscripts rick (inr [english])])
          = [] ++ [EvListTranscripts rick (inr tl)]
       /\ field "video_id"
            (languages_response rick (Some sample_proxy) [english])
          = Some (JStr rick)
       /\ field "available_languages"
            (languages_response rick (Some sample_proxy) [english])
          = Some (JArr (map (fun t =>
                               JObj [(lit "language",
                                      JStr (Transcript.language t));
                                     (lit "language_code",
                                      JStr (Transcript.language_code t));
                                     (lit "is_generated",
                                      JBool (Transcript.is_generated t));
                                     (lit "is_translatable",
                                      JBool (Transcript.is_translatable t))])
                            tl))
       /\ field "total_languages"
            (languages_response rick (Some sample_proxy) [english])
          = Some (JInt (Z.of_nat (List.length tl))).
Proof.
  split; [vm_compute; reflexivity|].
  apply (@language_listing_follows_provider
           unit english_only rick (Some sample_proxy) tt []).
  vm_compute. reflexivity.
Defined.

(** X11.  When the listing fails, [get_available_languages] classifies the
    failure by its message alone: if [Video unavailable] occurs anywhere in
    the message the error is the 404 [Video not found or unavailable];
    otherwise, whatever the message says (a message about missing
    transcripts included), it is a 500 whose detail ends with the whole
    message.  Either way only the one listing call was made. *)
Theorem language_listing_failure_is_classified
    {World : Type} (p : Provider World)
    (video_id : pystr) (proxy : option pystr)
    (w w1 : World) (log : list event) (msg : pystr) :
  video_id <> [] ->
  api_list_transcripts p video_id w = (inl msg, w1) ->
  ((exists before after, msg = before ++ lit "Video unavailable" ++ after) ->
   get_available_languages p video_id proxy (w, log)
   = (inl (HTTPException 404 (lit "Video not found or unavailable")),
      (w1, log ++ [EvListTranscripts video_id (inl msg)])))
  /\ (~ (exists before after,
           msg = before ++ lit "Video unavailable" ++ after) ->
      get_available_languages p video_id proxy (w, log)
      = (inl (HTTPException 500 (lit "Error retrieving languages: " ++ msg)),
         (w1, log ++ [EvListTranscripts video_id (inl msg)]))).
Proof.
  intros Hv Hl.
  rewrite (get_available_languages_run p proxy w log Hv), Hl. cbn [fst snd].
  unfold map_languages_error.
  destruct (contains (lit "Video unavailable") msg) eqn:Hc.
  - split; [reflexivity|].
    intros Hn. exfalso. apply Hn. apply contains_iff. exact Hc.
  - split; [|reflexivity].
    intros Hy. apply contains_iff in Hy. congruence.
Qed.

Lemma language_listing_failure_is_classified_witness :
  rick <> []
  /\ api_list_transcripts taken_down rick tt = (inl unavailable_message, tt)
  /\ (exists before after,
        unavailable_message = before ++ lit "Video unavailable" ++ after)
  /\ get_available_languages taken_down rick None (tt, [])
     = (inl (HTTPException 404 (lit "Video not found or unavailable")),
        (tt, [] ++ [EvListTranscripts rick (inl unavailable_message)])).
Proof.
  assert (Hsub : exists before after,
             unavailable_message = before ++ lit "Video unavailable" ++ after).
  { exists (lit "Could not retrieve a transcript: "),
           (lit " (private or deleted)"). reflexivity. }
  split; [discriminate|]. split; [reflexivity|]. split; [exact Hsub|].
  apply (proj1 (@language_listing_failure_is_classified
                  unit taken_down rick None tt tt [] unavailable_message
                  ltac:(discriminate) eq_refl)).
  exact Hsub.
Defined.

(** ** The shape of the responses and the handling of [proxy] *)

(** X14.  Each operation answers with a fixed set of keys, in a fixed
    order, and echoes the [video_id] it was asked for: five keys for the
    default operation, the same five with [language] inserted after
    [video_id] for the language-specific one, and four keys for the
    listing. *)
Theorem responses_have_fixed_keys
    {World : Type} (p : Provider World)
    (language_code video_id : pystr) (proxy : option pystr)
    (st st' : World * list event) (resp : json) :
  (get_transcript p video_id proxy st = (inr resp, st') ->
   keys resp = [lit "video_id"; lit "transcript"; lit "full_text";
                lit "total_entries"; lit "proxy_used"]
   /\ field "video_id" resp = Some (JStr video_id))
  /\ (get_transcript_with_language p language_code video_id proxy st
      = (inr resp, st') ->
      keys resp = [lit "video_id"; lit "language"; lit "transcript";
                   lit "full_text"; lit "total_entries"; lit "proxy_used"]
      /\ field "video_id" resp = Some (JStr video_id))
  /\ (get_available_languages p video_id proxy st = (inr resp, st') ->
      keys resp = [lit "video_id"; lit "available_languages";
                   lit "total_languages"; lit "proxy_used"]
      /\ field "video_id" resp = Some (JStr video_id)).
Proof.
  destruct st as [w log].
  destruct video_id as [|c v].
  - rewrite get_transcript_empty, get_transcript_with_language_empty,
      get_available_languages_empty.
    repeat split; discriminate.
  - assert (Hv : c :: v <> []) by discriminate.
    split; [|split]; intros H.
    + destruct (get_transcript_run p proxy w log Hv)
        as (r & w' & evs & E & _).
      rewrite E in H. destruct r as [e|es]; [discriminate|].
      injection H as <- _. split; reflexivity.
    + destruct (get_transcript_with_language_run
                  p language_code proxy w log Hv)
        as (r & w' & evs & E & _).
      rewrite E in H. destruct r as [e|es]; [discriminate|].
      injection H as <- _. split; reflexivity.
    + rewrite (get_available_languages_run p proxy w log Hv) in H.
      destruct (fst (api_list_transcripts p (c :: v) w)) as [m|tl];
        [discriminate|].
      injection H as <- _. split; reflexivity.
Qed.

Lemma responses_have_fixed_keys_witness :
  get_transcript_with_language english_only (lit "en") rick None (tt, [])
  = (inr (transcript_response rick (Some (lit "en")) None sample_entries),
     (tt, [EvGetTranscript rick (Some [lit "en"]) None (inr sample_entries)]))
  /\ keys (transcript_response rick (Some (lit "en")) None sample_entries)
     = [lit "video_id"; lit "language"; lit "transcript";
        lit "full_text"; lit "total_entries"; lit "proxy_used"]
  /\ field "video_id"
       (transcript_response rick (Some (lit "en")) None sample_entries)
     = Some (JStr rick).
Proof.
  split; [vm_compute; reflexivity|].
  apply (proj1 (proj2 (@responses_have_fixed_keys
                         unit english_only (lit "en") rick None (tt, [])
                         (tt, [EvGetTranscript rick (Some [lit "en"]) None
                                 (inr sample_entries)])
                         (transcript_response rick (Some (lit "en")) None
                            sample_entries)))).
  vm_compute. reflexivity.
Defined.

Lemma get_transcript_chain_eq
    {World : Type} (p : Provider World)
    (video_id : pystr) (proxy : option pystr) (st : World * list event) :
  video_id <> [] ->
  get_transcript p video_id proxy st
  = (match fst (fetch_with_fallback p video_id (proxies_of proxy) st) with
     | inl (HTTPException c d) => inl (HTTPException c d)
     | inl (Exception m) => inl (map_transcript_error m)
     | inr es => inr (transcript_response video_id None proxy es)
     end,
     snd (fetch_with_fallback p video_id (proxies_of proxy) st)).
Proof.
  intros Hv.
  apply get_transcript_of_chain; [exact Hv | apply surjective_pairing].
Qed.

(** X16.  An empty [proxy] behaves as no proxy at all, except for the
    flag: in both transcript operations a request with [proxy] set to the
    empty string makes the same calls, leaves the same world and log and
    has the same outcome as the request without [proxy], apart from
    [proxy_used] in a successful response. *)
Theorem empty_proxy_is_no_proxy
    {World : Type} (p : Provider World)
    (language_code video_id : pystr) (st : World * list event) :
  snd (get_transcript p video_id (Some []) st)
  = snd (get_transcript p video_id None st)
  /\ same_up_to "proxy_used"
       (fst (get_transcript p video_id (Some []) st))
       (fst (get_transcript p video_id None st))
  /\ snd (get_transcript_with_language p language_code video_id (Some []) st)
     = snd (get_transcript_with_language p language_code video_id None st)
  /\ same_up_to "proxy_used"
       (fst (get_transcript_with_language
               p language_code video_id (Some []) st))
       (fst (get_transcript_with_language p language_code video_id None st)).
Proof.
  destruct st as [w log].
  destruct video_id as [|c v].
  - rewrite !get_transcript_empty, !get_transcript_with_language_empty.
    repeat split; reflexivity.
  - assert (Hv : c :: v <> []) by discriminate.
    split; [|split; [|split]].
    + rewrite !get_transcript_chain_eq by exact Hv. reflexivity.
    + rewrite !get_transcript_chain_eq by exact Hv.
      cbn [fst proxies_of].
      destruct (fst (fetch_with_fallback p (c :: v) None (w, log)))
        as [[code d|m]|es]; reflexivity.
    + unfold get_transcript_with_language, try_reraising_http, bind,
        check_video_id.
      unfold ret at 1 3. cbv zeta. cbn [proxies_of].
      match goal with
      | |- context [try_provider ?b ?h (w, log)] =>
          destruct (try_provider b h (w, log)) as [[[code d|m]|es] st1]
      end; try reflexivity.
      destruct (format_loop es). reflexivity.
    + unfold get_transcript_with_language, try_reraising_http, bind,
        check_video_id.
      unfold ret at 1 3. cbv zeta. cbn [proxies_of].
      match goal with
      | |- context [try_provider ?b ?h (w, log)] =>
          destruct (try_provider b h (w, log)) as [[[code d|m]|es] st1]
      end; try (destruct (contains _ m); [|destruct (contains _ m)]);
        try reflexivity.
      destruct (format_loop es). reflexivity.
Qed.

(** * The requests, as the provider answers them *)

Section Answers.

Context {World : Type} (p : Provider World).

Ltac run_calls :=
  cbv beta iota zeta delta
    [try_provider try_except lift bind raise ret
     second_attempt third_attempt
     YouTubeTranscriptApi_get_transcript
     YouTubeTranscriptApi_list_transcripts find_transcript fetch logged
     fst snd].

Ltac join_log := repeat (rewrite <- app_assoc; cbn [app]).

Ltac all_answered :=
  repeat (econstructor; [eassumption|]); apply answered_nothing.

(** The fallback chain asks the provider in order, from the world each
    call left, and stops at the first call that delivers entries. *)
Lemma fetch_with_fallback_answered (video_id : pystr) (proxy : option pystr)
    (w : World) (log : list event) :
  exists r w' evs,
    fetch_with_fallback p video_id (proxies_of proxy) (w, log)
    = (r, (w', log ++ evs))
    /\ ordered_fallback video_id proxy evs r
    /\ answered p w evs w'.
Proof.
  unfold fetch_with_fallback. rewrite first_attempt_eq. run_calls.
  destruct (api_get_transcript p video_id None (proxies_of proxy) w)
    as [[m1|es] w1] eqn:E1; run_calls.
  2:{ do 3 eexists. split; [reflexivity|].
      split; [constructor | all_answered]. }
  destruct (api_get_transcript p video_id (Some en_variants) None w1)
    as [[m2|es] w2] eqn:E2; run_calls.
  2:{ do 3 eexists. split; [join_log; reflexivity|].
      split; [constructor | all_answered]. }
  destruct (api_list_transcripts p video_id w2) as [[m3|tl] w3] eqn:E3;
    run_calls.
  1:{ do 3 eexists. split; [join_log; reflexivity|].
      split; [constructor | all_answered]. }
  destruct (api_find_transcript p tl en_preferred w3) as [[m4|t] w4] eqn:E4;
    run_calls.
  1:{ do 3 eexists. split; [join_log; reflexivity|].
      split; [constructor | all_answered]. }
  destruct (api_fetch p t w4) as [[m5|es] w5] eqn:E5; run_calls.
  - do 3 eexists. split; [join_log; reflexivity|].
    split; [constructor | all_answered].
  - do 3 eexists. split; [join_log; reflexivity|].
    split; [constructor | all_answered].
Qed.

Lemma get_transcript_answered (video_id : pystr) (proxy : option pystr)
    (w : World) (log : list event) :
  video_id <> [] ->
  exists r w' evs,
    get_transcript p video_id proxy (w, log)
    = (match r with
       | inl e => inl e
       | inr es => inr (transcript_response video_id None proxy es)
       end, (w', log ++ evs))
    /\ ordered_fallback video_id proxy evs r
    /\ answered p w evs w'.
Proof.
  intros Hv.
  destruct (fetch_with_fallback_answered video_id proxy w log)
    as (r & w' & evs & E & Hr & Ha).
  exists r, w', evs. split; [|split; assumption].
  rewrite get_transcript_of_chain with (1 := Hv) (2 := E).
  inversion Hr; reflexivity.
Qed.

(** The language-specific operation, from the answer to its one fetch. *)
Lemma get_transcript_with_language_eq (language_code video_id : pystr)
    (proxy : option pystr) (w : World) (log : list event) :
  video_id <> [] ->
  get_transcript_with_language p language_code video_id proxy (w, log)
  = match api_get_transcript p video_id (Some [language_code])
            (proxies_of proxy) w with
    | (inr es, w1) =>
        (inr (transcript_response video_id (Some language_code) proxy es),
         (w1, log ++ [EvGetTranscript video_id (Some [language_code])
                        (proxies_of proxy) (inr es)]))
    | (inl m, w1) =>
        (inl (language_not_found language_code),
         (snd (api_list_transcripts p video_id w1),
          log ++ [EvGetTranscript video_id (Some [language_code])
                    (proxies_of proxy) (inl m);
                  EvListTranscripts video_id
                    (fst (api_list_transcripts p video_id w1))]))
    end.
Proof.
  intros Hv.
  destruct (api_get_transcript p video_id (Some [language_code])
              (proxies_of proxy) w) as [[m|es] w1] eqn:E.
  - apply failed_language_fetch_run with (1 := Hv) (2 := E).
  - unfold get_transcript_with_language, try_reraising_http, bind,
      check_video_id.
    destruct video_id as [|c v]; [congruence|].
    unfold ret at 1. cbv zeta.
    destruct (proxies_of proxy) as [px|];
      run_calls; rewrite E;
      rewrite <- (transcript_response_eq (c :: v) (Some language_code)
                    proxy es);
      destruct (format_loop es); reflexivity.
Qed.

End Answers.

(** ** The default operation *)

(** C3 (amended).  When the three attempts of [get_transcript] fail one
    after the other, the text of the first error is not pattern-matched:
    whether it contains [No transcripts were found], [Video unavailable]
    or neither, the operation fails with the 503 error whose detail ends
    with that text, and this is not the error the substring mapping would
    have made of it. *)
Theorem exhausted_fallback_is_not_pattern_matched
    {World : Type} (p : Provider World)
    (video_id : pystr) (proxy : option pystr)
    (st st1 st2 st3 : World * list event) (m1 m2 m3 : pystr) :
  video_id <> [] ->
  first_attempt p video_id (proxies_of proxy) st = (inl m1, st1) ->
  second_attempt p video_id st1 = (inl m2, st2) ->
  third_attempt p video_id st2 = (inl m3, st3) ->
  get_transcript p video_id proxy st
  = (inl (HTTPException 503 (blocked_hint ++ m1)), st3)
  /\ HTTPException 503 (blocked_hint ++ m1) <> map_transcript_error m1
  /\ contains m1 (blocked_hint ++ m1) = true.
Proof.
  intros Hv H1 H2 H3. split; [|split].
  - apply get_transcript_of_chain
      with (r := inl (HTTPException 503 (blocked_hint ++ m1))); [exact Hv|].
    unfold fetch_with_fallback, try_provider.
    rewrite H1, H2, H3. reflexivity.
  - unfold map_transcript_error.
    destruct (contains (lit "No transcripts were found") m1);
      [discriminate|].
    destruct (contains (lit "Video unavailable") m1); discriminate.
  - apply contains_suffix.
Qed.

Lemma exhausted_fallback_is_not_pattern_matched_witness :
  rick <> []
  /\ contains (lit "Video unavailable") unavailable_message = true
  /\ first_attempt taken_down rick (proxies_of None) (tt, [])
     = (inl unavailable_message,
        (tt, [EvGetTranscript rick None None (inl unavailable_message)]))
  /\ get_transcript taken_down rick None (tt, [])
     = (inl (HTTPException 503 (blocked_hint ++ unavailable_message)),
        (tt, [EvGetTranscript rick None None (inl unavailable_message);
              EvGetTranscript rick (Some en_variants) None
                (inl unavailable_message);
              EvListTranscripts rick (inl unavailable_message)]))
  /\ HTTPException 503 (blocked_hint ++ unavailable_message)
     <> map_transcript_error unavailable_message
  /\ contains unavailable_message (blocked_hint ++ unavailable_message)
     = true.
Proof.
  split; [discriminate|]. split; [vm_compute; reflexivity|].
  split; [reflexivity|].
  apply (@exhausted_fallback_is_not_pattern_matched
           unit taken_down rick None (tt, [])
           (tt, [EvGetTranscript rick None None (inl unavailable_message)])
           (tt, [EvGetTranscript rick None None (inl unavailable_message);
                 EvGetTranscript rick (Some en_variants) None
                   (inl unavailable_message)])
           _ unavailable_message unavailable_message unavailable_message).
  - discriminate.
  - reflexivity.
  - reflexivity.
  - reflexivity.
Defined.

(** C5 (amended).  A request for the default transcript of a non-empty
    [video_id] is an ordered fallback over the provider's answers.  The
    calls it makes, each answered from the world the previous one left,
    are: a fetch without language preference, which carries [proxy] under
    [http] and [https] when [proxy] is a non-empty string and no proxies
    when it is absent or empty; then, only if that failed, a fetch
    restricted to [en], [en-US], [en-GB] without proxies; then, only if
    that failed too, the listing of the transcripts, the search for [en],
    [en-US] in the list and the fetch of what was found.  The first call
    that delivers entries ends the request, whose response is built from
    these entries and has no [language] key; if none does, the request
    fails. *)
Theorem default_operation_follows_provider_answers
    {World : Type} (p : Provider World)
    (video_id : pystr) (proxy : option pystr)
    (w : World) (log : list event) :
  video_id <> [] ->
  exists (r : exn + list CaptionEntry) (w' : World) (evs : list event),
    get_transcript p video_id proxy (w, log)
    = (match r with
       | inl e => inl e
       | inr es => inr (transcript_response video_id None proxy es)
       end, (w', log ++ evs))
    /\ answered p w evs w'
    /\ ordered_fallback video_id proxy evs r
    /\ proxies_of proxy
       = match proxy with
         | None => None
         | Some [] => None
         | Some url => Some [(lit "http", url); (lit "https", url)]
         end
    /\ forall es : list CaptionEntry,
         field "transcript" (transcript_response video_id None proxy es)
         = Some (JArr (map formatted_entry es))
         /\ field "language" (transcript_response video_id None proxy es)
            = None.
Proof.
  intros Hv.
  destruct (get_transcript_answered p proxy w log Hv)
    as (r & w' & evs & E & Hr & Ha).
  exists r, w', evs.
  split; [exact E|]. split; [exact Ha|]. split; [exact Hr|]. split.
  - destruct proxy as [[|c s]|]; reflexivity.
  - intros es. split.
    + apply field_transcript.
    + apply (field_language video_id None proxy es).
Qed.

Lemma default_operation_follows_provider_answers_witness :
  rick <> []
  /\ exists (r : exn + list CaptionEntry) (w' : nat) (evs : list event),
       get_transcript flaky rick (Some sample_proxy) (0%nat, [])
       = (match r with
          | inl e => inl e
          | inr es =>
              inr (transcript_response rick None (Some sample_proxy) es)
          end, (w', [] ++ evs))
       /\ answered flaky 0%nat evs w'
       /\ ordered_fallback rick (Some sample_proxy) evs r
       /\ proxies_of (Some sample_proxy)
          = match Some sample_proxy with
            | None => None
            | Some [] => None
            | Some url => Some [(lit "http", url); (lit "https", url)]
            end
       /\ forall es : list CaptionEntry,
            field "transcript"
              (transcript_response rick None (Some sample_proxy) es)
            = Some (JArr (map formatted_entry es))
            /\ field "language"
                 (transcript_response rick None (Some sample_proxy) es)
               = None.
Proof.
  split; [discriminate|].
  apply (@default_operation_follows_provider_answers
           nat flaky rick (Some sample_proxy) 0%nat []).
  discriminate.
Defined.

(** C5 (counterexample).  An empty [proxy] is supplied, and reported as
    used, yet the first fetch is not routed through it: the call is made
    without proxies. *)
Lemma supplied_empty_proxy_counterexample :
  get_transcript english_only rick (Some []) (tt, [])
  = (inr (transcript_response rick None (Some []) sample_entries),
     (tt, [EvGetTranscript rick None None (inr sample_entries)]))
  /\ field "proxy_used"
       (transcript_response rick None (Some []) sample_entries)
     = Some (JBool true)
  /\ ~ (exists (px : Proxies) (r : pystr + list CaptionEntry)
               (rest : list event),
          snd (snd (get_transcript english_only rick (Some []) (tt, [])))
          = EvGetTranscript rick None (Some px) r :: rest).
Proof.
  split; [vm_compute; reflexivity|]. split; [reflexivity|].
  intros (px & r & rest & H). vm_compute in H. discriminate.
Qed.

(** ** The language-specific operation *)

(** C6.  A request for a transcript in [language_code], with a non-empty
    [video_id], asks the provider for captions exactly once: its first
    call is the fetch restricted to [language_code] alone, and no call
    that follows asks for captions.  If the provider answers that fetch
    with entries, nothing else is called and the response is built from
    these entries, with [language_code] under [language]; if the provider
    fails it, the operation raises an error. *)
Theorem language_operation_makes_one_fetch
    {World : Type} (p : Provider World)
    (language_code video_id : pystr) (proxy : option pystr)
    (w w1 : World) (log : list event) (r : pystr + list CaptionEntry) :
  video_id <> [] ->
  api_get_transcript p video_id (Some [language_code]) (proxies_of proxy) w
  = (r, w1) ->
  exists (w' : World) (rest : list event),
    snd (get_transcript_with_language p language_code video_id proxy (w, log))
    = (w', log ++ EvGetTranscript video_id (Some [language_code])
                    (proxies_of proxy) r :: rest)
    /\ answered p w1 rest w'
    /\ filter is_fetch rest = []
    /\ match r with
       | inr es =>
           rest = []
           /\ fst (get_transcript_with_language
                     p language_code video_id proxy (w, log))
              = inr (transcript_response video_id (Some language_code)
                       proxy es)
           /\ field "language"
                (transcript_response video_id (Some language_code) proxy es)
              = Some (JStr language_code)
           /\ field "transcript"
                (transcript_response video_id (Some language_code) proxy es)
              = Some (JArr (map formatted_entry es))
       | inl _ =>
           exists e : exn,
             fst (get_transcript_with_language
                    p language_code video_id proxy (w, log)) = inl e
       end.
Proof.
  intros Hv Hf.
  rewrite (get_transcript_with_language_eq p language_code proxy w log Hv).
  rewrite Hf. destruct r as [m|es]; cbn [fst snd].
  - exists (snd (api_list_transcripts p video_id w1)).
    eexists. split; [reflexivity|]. split; [|split; [reflexivity|]].
    + econstructor; [apply surjective_pairing | constructor].
    + eexists. reflexivity.
  - exists w1, []. split; [reflexivity|]. split; [constructor|].
    split; [reflexivity|]. split; [reflexivity|]. split; [reflexivity|].
    split.
    + apply (field_language video_id (Some language_code) proxy es).
    + apply field_transcript.
Qed.

Lemma language_operation_makes_one_fetch_witness :
  rick <> []
  /\ api_get_transcript english_only rick (Some [lit "fr"]) (proxies_of None)
       tt
     = (inl no_transcript_message, tt)
  /\ exists (w' : unit) (rest : list event),
       snd (get_transcript_with_language english_only (lit "fr") rick None
              (tt, []))
       = (w', [] ++ EvGetTranscript rick (Some [lit "fr"]) (proxies_of None)
                      (inl no_transcript_message) :: rest)
       /\ answered english_only tt rest w'
       /\ filter is_fetch rest = []
       /\ exists e : exn,
            fst (get_transcript_with_language
                   english_only (lit "fr") rick None (tt, [])) = inl e.
Proof.
  split; [discriminate|]. split; [reflexivity|].
  apply (@language_operation_makes_one_fetch
           unit english_only (lit "fr") rick None tt tt []
           (inl no_transcript_message)).
  - discriminate.
  - reflexivity.
Defined.

(** X15.  The language-specific operation hands the proxy to its one
    fetch only.  For a non-empty [video_id] the call it starts with is the
    fetch restricted to [language_code], with [proxy] under both [http] and
    [https] when [proxy] is a non-empty string and without proxies
    otherwise.  If the provider answers it with entries no other call is
    made; if the provider fails it, the one call that follows is the
    listing of the transcripts of [video_id], which takes no proxy. *)
Theorem language_fetch_forwards_proxy
    {World : Type} (p : Provider World)
    (language_code video_id : pystr) (proxy : option pystr)
    (w w1 : World) (log : list event) (r : pystr + list CaptionEntry) :
  video_id <> [] ->
  api_get_transcript p video_id (Some [language_code])
    match proxy with
    | None => None
    | Some [] => None
    | Some url => Some [(lit "http", url); (lit "https", url)]
    end w
  = (r, w1) ->
  snd (get_transcript_with_language p language_code video_id proxy (w, log))
  = match r with
    | inr _ =>
        (w1,
         log ++ [EvGetTranscript video_id (Some [language_code])
                   match proxy with
                   | None => None
                   | Some [] => None
                   | Some url => Some [(lit "http", url); (lit "https", url)]
                   end r])
    | inl _ =>
        (snd (api_list_transcripts p video_id w1),
         log ++ [EvGetTranscript video_id (Some [language_code])
                   match proxy with
                   | None => None
                   | Some [] => None
                   | Some url => Some [(lit "http", url); (lit "https", url)]
                   end r;
                 EvListTranscripts video_id
                   (fst (api_list_transcripts p video_id w1))])
    end.
Proof.
  intros Hv Hf.
  rewrite (get_transcript_with_language_eq p language_code proxy w log Hv).
  assert (Hf' : api_get_transcript p video_id (Some [language_code])
                  (proxies_of proxy) w = (r, w1))
    by (destruct proxy as [[|c s]|]; exact Hf).
  rewrite Hf'.
  destruct proxy as [[|c s]|]; destruct r as [m|es]; reflexivity.
Qed.

Lemma language_fetch_forwards_proxy_witness :
  rick <> []
  /\ api_get_transcript english_only rick (Some [lit "fr"])
       (Some [(lit "http", sample_proxy); (lit "https", sample_proxy)]) tt
     = (inl no_transcript_message, tt)
  /\ snd (get_transcript_with_language
            english_only (lit "fr") rick (Some sample_proxy) (tt, []))
     = (snd (api_list_transcripts english_only rick tt),
        [] ++ [EvGetTranscript rick (Some [lit "fr"])
                 match Some sample_proxy with
                 | None => None
                 | Some [] => None
                 | Some url => Some [(lit "http", url); (lit "https", url)]
                 end (inl no_transcript_message);
               EvListTranscripts rick
                 (fst (api_list_transcripts english_only rick tt))]).
Proof.
  split; [discriminate|]. split; [reflexivity|].
  apply (@language_fetch_forwards_proxy
           unit english_only (lit "fr") rick (Some sample_proxy) tt tt []
           (inl no_transcript_message)).
  - discriminate.
  - reflexivity.
Defined.

(** ** How many calls a request makes *)

(** X13.  The number of calls a request makes into the provider is
    bounded.  For a non-empty [video_id] the calls of the default
    operation, each answered by the provider from the world the previous
    one left, are between one and five, of which one to three ask for
    captions; those of the language-specific operation are one or two; the
    listing makes exactly one call, the listing of the transcripts of
    [video_id]. *)
Theorem provider_calls_are_bounded
    {World : Type} (p : Provider World)
    (language_code video_id : pystr) (proxy : option pystr)
    (w : World) (log : list event) :
  video_id <> [] ->
  exists (evs1 evs2 : list event) (w1 w2 : World),
    snd (get_transcript p video_id proxy (w, log)) = (w1, log ++ evs1)
    /\ answered p w evs1 w1
    /\ (1 <= List.length evs1 <= 5)%nat
    /\ (1 <= List.length (filter is_fetch evs1) <= 3)%nat
    /\ snd (get_transcript_with_language
              p language_code video_id proxy (w, log)) = (w2, log ++ evs2)
    /\ answered p w evs2 w2
    /\ (1 <= List.length evs2 <= 2)%nat
    /\ snd (get_available_languages p video_id proxy (w, log))
       = (snd (api_list_transcripts p video_id w),
          log ++ [EvListTranscripts video_id
                    (fst (api_list_transcripts p video_id w))]).
Proof.
  intros Hv.
  destruct (get_transcript_answered p proxy w log Hv)
    as (r1 & w1 & evs1 & E1 & Hr1 & Ha1).
  rewrite E1, (get_transcript_with_language_eq p language_code proxy w log Hv),
    (get_available_languages_run p proxy w log Hv).
  destruct (api_get_transcript p video_id (Some [language_code])
              (proxies_of proxy) w) as [[m|es] w2] eqn:E2.
  - exists evs1. eexists. exists w1. eexists. cbn [fst snd].
    split; [reflexivity|]. split; [exact Ha1|].
    split; [inversion Hr1; subst; simpl; lia|].
    split; [inversion Hr1; subst; simpl; lia|].
    split; [reflexivity|]. split.
    + econstructor; [exact E2|].
      econstructor; [apply surjective_pairing | constructor].
    + split; [simpl; lia | reflexivity].
  - exists evs1. eexists. exists w1. eexists. cbn [fst snd].
    split; [reflexivity|]. split; [exact Ha1|].
    split; [inversion Hr1; subst; simpl; lia|].
    split; [inversion Hr1; subst; simpl; lia|].
    split; [reflexivity|]. split.
    + econstructor; [exact E2 | constructor].
    + split; [simpl; lia | reflexivity].
Qed.

Lemma provider_calls_are_bounded_witness :
  rick <> []
  /\ exists (evs1 evs2 : list event) (w1 w2 : unit),
       snd (get_transcript listed_only rick None (tt, [])) = (w1, [] ++ evs1)
       /\ answered listed_only tt evs1 w1
       /\ (1 <= List.length evs1 <= 5)%nat
       /\ (1 <= List.length (filter is_fetch evs1) <= 3)%nat
       /\ snd (get_transcript_with_language
                 listed_only (lit "fr") rick None (tt, []))
          = (w2, [] ++ evs2)
       /\ answered listed_only tt evs2 w2
       /\ (1 <= List.length evs2 <= 2)%nat
       /\ snd (get_available_languages listed_only rick None (tt, []))
          = (snd (api_list_transcripts listed_only rick tt),
             [] ++ [EvListTranscripts rick
                      (fst (api_list_transcripts listed_only rick tt))]).
Proof.
  split; [discriminate|].
  apply (@provider_calls_are_bounded
           unit listed_only (lit "fr") rick None tt []).
  discriminate.
Defined.
